(** * Template assembler: [assemble_preview.py] and [build_preview.py]

    Both scripts read three text files (an index document, a stylesheet
    fragment and a javascript fragment), substitute two literal include
    markers of the index document by the fragments with [str.replace], and
    write the result to a preview file.  This development embeds the two
    scripts over an explicit model of the file system and of the console,
    and proves the properties of the substitution pipeline.

    Texts are lists of characters; a character is modelled as an [ascii].
    Paths and console lines are [string]s. *)

From Stdlib Require Import Ascii String DecimalString.
From stdpp Require Import gmap strings list.

Local Open Scope list_scope.

Abbreviation text := (list ascii).
Abbreviation path := string.

(** ** The string operations of Python used by the scripts *)

Module Str.

(** [s.startswith(p)]: [p] is found in [s] at position 0. *)
Fixpoint startswith (s p : text) : bool :=
  match p, s with
  | [], _ => true
  | _ :: _, [] => false
  | x :: p', c :: s' => if Ascii.eqb c x then startswith s' p' else false
  end.

(** [sub in s]: [sub] is found in [s] at some position. *)
Fixpoint contains (s sub : text) : bool :=
  startswith s sub ||
  match s with
  | [] => false
  | _ :: s' => contains s' sub
  end.

(** The scan of [s.replace(old, new)] for a non-empty [old]: the text is
    read from left to right; at a position where [old] is found, [new] is
    emitted and the scan resumes after the occurrence ([skip] counts the
    characters of the occurrence still to be passed over); elsewhere the
    character is copied. *)
Fixpoint replace_scan (old new : text) (skip : nat) (s : text) : text :=
  match s with
  | [] => []
  | c :: s' =>
      match skip with
      | S k => replace_scan old new k s'
      | O =>
          if startswith s old
          then new ++ replace_scan old new (length old - 1) s'
          else c :: replace_scan old new 0 s'
      end
  end.

(** [s.replace(old, new)]: every non-overlapping occurrence of [old], taken
    from the left, is replaced by [new].  For the empty [old], Python
    inserts [new] before every character and at the end. *)
Definition replace (s old new : text) : text :=
  match old with
  | [] => new ++ flat_map (fun c => c :: new) s
  | _ :: _ => replace_scan old new 0 s
  end.

(** [len(s)] printed in an f-string: the decimal numeral. *)
Definition str_of_nat (n : nat) : string :=
  NilZero.string_of_uint (Nat.to_uint n).

End Str.

Definition txt (s : string) : text := list_ascii_of_string s.

(** ** Fragments that cannot take part in an occurrence of a marker *)

(** [no_start m g]: no occurrence of [m] can begin inside [g], whatever
    follows [g]: no non-empty suffix of [g] is a prefix of [m] or has [m] as
    a prefix. *)
Fixpoint no_start (m g : text) : bool :=
  match g with
  | [] => true
  | _ :: g' =>
      negb (Str.startswith m g) && negb (Str.startswith g m) && no_start m g'
  end.

(** [first_fresh m f]: [f] is not empty and its first character occurs in
    [m] at position 0 at most, so that no occurrence of [m] that begins
    before [f] can reach into [f]. *)
Definition first_fresh (m f : text) : bool :=
  match f with
  | [] => false
  | c :: _ => forallb (fun y => negb (Ascii.eqb c y)) (tail m)
  end.

(** [inert m f]: inserting [f] into any text neither creates an occurrence
    of the marker [m] nor completes one. *)
Definition inert (m f : text) : bool := first_fresh m f && no_start m f.

(** ** The operating system: files and console *)

Inductive OSError : Type :=
  | FileNotFoundError (p : path)
  | PermissionError (p : path).

(** [files] holds the content of the files that exist; [open(p, 'r')] fails
    on a path of [unreadable] and [open(p, 'w')] on a path of [unwritable]
    (missing directory, permissions); [stdout] is the list of the lines
    printed so far, oldest first. *)
Record World : Type := mkWorld {
  files : gmap string text;
  unreadable : gset string;
  unwritable : gset string;
  stdout : list string
}.

(** A script step takes a world to a world and either raises or returns.
    An exception that nobody catches ends the script: [mbind] does not run
    what follows it. *)
Definition IO (A : Type) : Type := World -> World * (OSError + A).

Global Instance io_ret : MRet IO := fun A a w => (w, inr a).

Global Instance io_bind : MBind IO := fun A B k c w =>
  match c w with
  | (w', inl e) => (w', inl e)
  | (w', inr a) => k a w'
  end.

(** [with open(p, 'r') as f: f.read()] *)
Definition read_file (p : path) : IO text := fun w =>
  if decide (p ∈ unreadable w) then (w, inl (PermissionError p))
  else match files w !! p with
       | Some t => (w, inr t)
       | None => (w, inl (FileNotFoundError p))
       end.

(** [with open(p, 'w') as f: f.write(t)]: the file is created or
    overwritten. *)
Definition write_file (p : path) (t : text) : IO unit := fun w =>
  if decide (p ∈ unwritable w) then (w, inl (PermissionError p))
  else (mkWorld (<[p := t]> (files w)) (unreadable w) (unwritable w) (stdout w),
        inr tt).

(** [print(line)] *)
Definition print (line : string) : IO unit := fun w =>
  (mkWorld (files w) (unreadable w) (unwritable w) (stdout w ++ [line]), inr tt).

Module Os.

Definition sep : string := "/".

Definition endswith_sep (a : string) : bool :=
  match rev (list_ascii_of_string a) with
  | c :: _ => Ascii.eqb c "/"
  | [] => false
  end.

(** One step of [os.path.join] (posix): an absolute component discards what
    precedes it, otherwise the components are joined with one separator. *)
Definition join2 (a b : string) : string :=
  if String.prefix sep b then b
  else if (String.eqb a "" || endswith_sep a)%bool then (a ++ b)%string
  else (a ++ sep ++ b)%string.

Definition path_join (a : string) (ps : list string) : string :=
  fold_left join2 ps a.

End Os.

(** ** [assemble_preview.py] *)

Module AssemblePreview.

Definition base_dir : string :=
  "/Users/nhelvengonzales/.gemini/antigravity/scratch/monday_integration".
Definition index_path : path := Os.path_join base_dir ["Index.html"%string].
Definition style_path : path := Os.path_join base_dir ["Stylesheet.html"%string].
Definition js_path : path := Os.path_join base_dir ["JavaScript.html"%string].
Definition preview_path : path :=
  Os.path_join base_dir ["PreviewIndex.html"%string].

Definition main : IO unit :=
  index_content ← read_file index_path;
  style_content ← read_file style_path;
  js_content ← read_file js_path;
  let preview_content :=
    Str.replace index_content (txt "<?!= include('Stylesheet'); ?>")
      style_content in
  let preview_content :=
    Str.replace preview_content (txt "<?!= include('JavaScript'); ?>")
      js_content in
  _ ← write_file preview_path preview_content;
  print ("Created " ++ preview_path)%string.

End AssemblePreview.

(** ** [build_preview.py] *)

Module BuildPreview.

Definition base_dir : string :=
  "/Users/nhelvengonzales/.gemini/antigravity/scratch/monday_integration".
Definition index_path : path := Os.path_join base_dir ["Index.html"%string].
Definition style_path : path := Os.path_join base_dir ["Stylesheet.html"%string].
Definition js_path : path := Os.path_join base_dir ["JavaScript.html"%string].
Definition preview_path : path :=
  Os.path_join base_dir ["Preview Folder"%string; "preview_v6.html"%string].

Definition main : IO unit :=
  index_content ← read_file index_path;
  style_content ← read_file style_path;
  js_content ← read_file js_path;
  index_content ←
    (if Str.contains index_content (txt "<?!= include('Stylesheet'); ?>")
     then
       _ ← print "Found Stylesheet include";
       mret (Str.replace index_content (txt "<?!= include('Stylesheet'); ?>")
               style_content)
     else
       _ ← print "WARNING: Stylesheet include not found exactly";
       mret index_content);
  index_content ←
    (if Str.contains index_content (txt "<?!= include('JavaScript'); ?>")
     then
       _ ← print "Found JavaScript include";
       mret (Str.replace index_content (txt "<?!= include('JavaScript'); ?>")
               js_content)
     else
       _ ← print "WARNING: JavaScript include not found exactly";
       mret index_content);
  _ ← write_file preview_path index_content;
  print ("Created " ++ preview_path ++ " with length "
         ++ Str.str_of_nat (length index_content))%string.

End BuildPreview.

(** ** The vocabulary of the specification *)

(** The two markers, M_A (bound to the stylesheet fragment) and M_B (bound
    to the javascript fragment). *)
Definition M_A : text := txt "<?!= include('Stylesheet'); ?>".
Definition M_B : text := txt "<?!= include('JavaScript'); ?>".

(** Substitute-all of one marker, and the pipeline in the order of the
    specification (A before B) and in the opposite order. *)
Definition subst_A (style doc : text) : text := Str.replace doc M_A style.
Definition subst_B (js doc : text) : text := Str.replace doc M_B js.

Definition A_then_B (index style js : text) : text :=
  subst_B js (subst_A style index).
Definition B_then_A (index style js : text) : text :=
  subst_A style (subst_B js index).

(** A file that can be read, with its content; a path that can be written. *)
Definition readable (w : World) (p : path) (t : text) : Prop :=
  (p ∉ unreadable w) /\ files w !! p = Some t.
Definition writable (w : World) (p : path) : Prop := p ∉ unwritable w.

(** The three inputs of a run, at the paths both scripts read. *)
Definition inputs (w : World) (index style js : text) : Prop :=
  readable w AssemblePreview.index_path index /\
  readable w AssemblePreview.style_path style /\
  readable w AssemblePreview.js_path js.

(** The outcome of a script started in [w]. *)
Definition world_after (script : IO unit) (w : World) : World := (script w).1.
Definition outcome (script : IO unit) (w : World) : OSError + unit :=
  (script w).2.
Definition written (script : IO unit) (p : path) (w : World) : option text :=
  files (world_after script w) !! p.
(** The lines the script printed. *)
Definition printed (script : IO unit) (w : World) : list string :=
  drop (length (stdout w)) (stdout (world_after script w)).

(** A world that holds the three inputs and nothing else. *)
Definition world_of (index style js : text) : World :=
  mkWorld (<[AssemblePreview.index_path := index]>
            (<[AssemblePreview.style_path := style]>
              (<[AssemblePreview.js_path := js]> ∅)))
          ∅ ∅ [].

(** The console lines of [build_preview.py]. *)
Definition found_A : string := "Found Stylesheet include".
Definition found_B : string := "Found JavaScript include".
Definition warning_A : string := "WARNING: Stylesheet include not found exactly".
Definition warning_B : string := "WARNING: JavaScript include not found exactly".

(** The status line of a marker in [build_preview.py], and the last line of
    each script. *)
Definition status (found warning : string) (doc marker : text) : string :=
  if Str.contains doc marker then found else warning.

Definition created_A : string :=
  ("Created " ++ AssemblePreview.preview_path)%string.
Definition created_B (out : text) : string :=
  ("Created " ++ BuildPreview.preview_path ++ " with length "
   ++ Str.str_of_nat (length out))%string.

(** ** Further vocabulary: occurrences and errors *)

(** [s.count(old)]: the number of non-overlapping occurrences of [old] that
    the scan of [replace] finds, taken from the left. *)
Fixpoint count_scan (old : text) (skip : nat) (s : text) : nat :=
  match s with
  | [] => 0
  | _ :: s' =>
      match skip with
      | S k => count_scan old k s'
      | O =>
          if Str.startswith s old
          then S (count_scan old (length old - 1) s')
          else count_scan old 0 s'
      end
  end.

Definition count (s old : text) : nat :=
  match old with
  | [] => S (length s)
  | _ :: _ => count_scan old 0 s
  end.

(** The error of [open(p, 'r')] on a path that cannot be read. *)
Definition open_error (w : World) (p : path) : OSError :=
  if decide (p ∈ unreadable w) then PermissionError p
  else FileNotFoundError p.

(** Some text can be read at [p]. *)
Definition can_read (w : World) (p : path) : Prop :=
  exists t, readable w p t.

(** What [os.path.join] puts between a directory and a relative name. *)
Definition glue (a : string) : string :=
  if (String.eqb a "" || Os.endswith_sep a)%bool then ""%string else Os.sep.

(** ** Examples *)

Example replace_all_ex :
  Str.replace (txt "a--b--c") (txt "--") (txt "+") = txt "a+b+c".
Proof. reflexivity. Qed.

Example replace_leftmost_ex :
  Str.replace (txt "aaa") (txt "aa") (txt "b") = txt "ba".
Proof. reflexivity. Qed.

Example replace_empty_old_ex :
  Str.replace (txt "abc") (txt "") (txt "-") = txt "-a-b-c-".
Proof. reflexivity. Qed.

Example str_of_nat_ex : Str.str_of_nat 1204 = "1204"%string.
Proof. reflexivity. Qed.

(** ** Elementary facts about [startswith], [contains] and [replace] *)

Section StrFacts.

Import Str.

Lemma startswith_nil (s : text) : startswith s [] = true.
Proof. by destruct s. Qed.

Lemma startswith_app (p r : text) : startswith (p ++ r) p = true.
Proof.
  induction p as [|x p IH]; simpl; [apply startswith_nil|].
  by rewrite Ascii.eqb_refl.
Qed.

Lemma startswith_inv (s p : text) :
  startswith s p = true -> s = p ++ drop (length p) s.
Proof.
  revert s; induction p as [|x p IH]; intros [|c s] H; simpl in *; try done.
  destruct (Ascii.eqb_spec c x) as [->|]; [|done].
  f_equal. by apply IH.
Qed.

Lemma startswith_spec (s p : text) :
  startswith s p = true <-> exists r, s = p ++ r.
Proof.
  split.
  - intros H. exists (drop (length p) s). by apply startswith_inv.
  - intros [r ->]. apply startswith_app.
Qed.

Lemma startswith_length (s p : text) :
  startswith s p = true -> length p <= length s.
Proof.
  intros [r ->]%startswith_spec. rewrite length_app. lia.
Qed.

Lemma startswith_app_l (s r p : text) :
  startswith s p = true -> startswith (s ++ r) p = true.
Proof.
  intros [q ->]%startswith_spec. rewrite <- app_assoc. apply startswith_app.
Qed.

(** When the candidate occurrence fits in the first part of a
    concatenation, only that part decides. *)
Lemma startswith_app_fit (u r p : text) :
  length p <= length u -> startswith (u ++ r) p = startswith u p.
Proof.
  revert u; induction p as [|x p IH]; intros [|c u] Hl; simpl in *;
    try done; try lia.
  - by rewrite startswith_nil.
  - destruct (Ascii.eqb c x); [|done]. apply IH. lia.
Qed.

Lemma contains_startswith (s sub : text) :
  startswith s sub = true -> contains s sub = true.
Proof. intros H. destruct s; cbn [contains]; by rewrite H. Qed.

Lemma contains_cons (c : ascii) (s sub : text) :
  contains s sub = true -> contains (c :: s) sub = true.
Proof. intros H. cbn [contains]. rewrite H. by rewrite orb_true_r. Qed.

(** [contains] finds exactly the decompositions [s = u ++ sub ++ v]. *)
Lemma contains_spec (s sub : text) :
  contains s sub = true <-> exists u v, s = u ++ sub ++ v.
Proof.
  split.
  - induction s as [|c s IH]; cbn [contains]; rewrite orb_true_iff.
    + intros [H|H]; [|done]. apply startswith_spec in H as [r Hr].
      exists [], r. exact Hr.
    + intros [H|H].
      * apply startswith_spec in H as [r Hr]. exists [], r. exact Hr.
      * destruct (IH H) as (u & v & ->). by exists (c :: u), v.
  - intros (u & v & ->). induction u as [|c u IH].
    + rewrite app_nil_l. apply contains_startswith, startswith_app.
    + by apply contains_cons.
Qed.

Lemma contains_app_l (s r sub : text) :
  contains s sub = true -> contains (s ++ r) sub = true.
Proof.
  intros (u & v & ->)%contains_spec. apply contains_spec.
  exists u, (v ++ r). by rewrite <- !app_assoc.
Qed.

Lemma contains_app_r (r s sub : text) :
  contains s sub = true -> contains (r ++ s) sub = true.
Proof.
  intros (u & v & ->)%contains_spec. apply contains_spec.
  exists (r ++ u), v. by rewrite <- !app_assoc.
Qed.

Lemma contains_tail_false (c : ascii) (s sub : text) :
  contains (c :: s) sub = false -> contains s sub = false.
Proof. cbn [contains]. by intros [_ H]%orb_false_iff. Qed.

Lemma contains_head_false (s sub : text) :
  contains s sub = false -> startswith s sub = false.
Proof. destruct s; cbn [contains]; by intros [H _]%orb_false_iff. Qed.

(** Passing over [k] characters is dropping them. *)
Lemma replace_scan_skip (old new : text) (k : nat) (s : text) :
  k <= length s ->
  replace_scan old new k s = replace_scan old new 0 (drop k s).
Proof.
  revert k; induction s as [|c s IH]; intros [|k] Hk; simpl in *;
    try done; try lia.
  apply IH. lia.
Qed.

Section NonEmptyOld.

Variables (x : ascii) (m : text).
Local Abbreviation old := (x :: m).

(** The three equations of the scan. *)
Lemma replace_nil (new : text) : replace [] old new = [].
Proof. done. Qed.

Lemma replace_hit (r new : text) :
  replace (old ++ r) old new = new ++ replace r old new.
Proof.
  unfold replace. simpl. rewrite Ascii.eqb_refl, startswith_app.
  f_equal. rewrite Nat.sub_0_r, replace_scan_skip.
  - by rewrite drop_app_length.
  - rewrite length_app. lia.
Qed.

Lemma replace_miss (c : ascii) (s new : text) :
  startswith (c :: s) old = false ->
  replace (c :: s) old new = c :: replace s old new.
Proof.
  unfold replace. intros H. simpl in *. by rewrite H.
Qed.

(** Induction along the scan. *)
Lemma replace_scan_ind (P : text -> Prop) :
  P [] ->
  (forall r, P r -> P (old ++ r)) ->
  (forall c s, startswith (c :: s) old = false -> P s -> P (c :: s)) ->
  forall s, P s.
Proof.
  intros Hnil Hhit Hmiss s.
  induction s as [s IH] using (induction_ltof1 _ (@length ascii)).
  unfold ltof in IH. destruct s as [|c s]; [done|].
  destruct (startswith (c :: s) old) eqn:E.
  - apply startswith_inv in E. rewrite E. apply Hhit, IH.
    rewrite length_drop. simpl. lia.
  - apply Hmiss; [done|]. apply IH. simpl. lia.
Qed.

End NonEmptyOld.

(** A text that does not contain [old] is left as it is. *)
Lemma replace_absent (s old new : text) :
  contains s old = false -> replace s old new = s.
Proof.
  destruct old as [|x m].
  - intros H. apply contains_head_false in H. by rewrite startswith_nil in H.
  - induction s as [|c s IH]; intros H; [done|].
    rewrite replace_miss by by apply contains_head_false.
    f_equal. apply IH. by apply contains_tail_false in H.
Qed.

End StrFacts.

(** ** Inert blocks are copied by the scan *)

Section Inert.

Import Str.

(** If the text at hand begins with [p] and its first part [g] is no longer
    than [p], then [g] is a prefix of [p]. *)
Lemma startswith_short (g r p : text) :
  startswith (g ++ r) p = true -> length g <= length p ->
  startswith p g = true.
Proof.
  revert p; induction g as [|c g IH]; intros [|y p] H Hl; simpl in *;
    try done; try lia.
  destruct (Ascii.eqb_spec c y) as [->|]; [|done].
  rewrite Ascii.eqb_refl. apply IH; [done|lia].
Qed.

(** If an occurrence of [p] begins in [u], before a block that starts with
    [c], and reaches that block, then [c] is the character of [p] at
    position [length u]. *)
Lemma startswith_reach (u w p : text) (c : ascii) :
  startswith (u ++ c :: w) p = true -> length u < length p ->
  p !! length u = Some c.
Proof.
  revert p; induction u as [|z u IH]; intros [|y p] H Hl; simpl in *;
    try done; try lia.
  - by destruct (Ascii.eqb_spec c y) as [->|].
  - destruct (Ascii.eqb z y); [|done]. apply IH; [done|lia].
Qed.

Lemma first_fresh_spec (m f : text) :
  first_fresh m f = true <->
  exists c f', f = c :: f' /\ forall i, tail m !! i <> Some c.
Proof.
  unfold first_fresh. destruct f as [|c f']; [by split; [|intros (?&?&?&?)]|].
  rewrite forallb_forall. split.
  - intros H. exists c, f'. split; [done|]. intros i Hi.
    apply list_elem_of_lookup_2, list_elem_of_In, H in Hi.
    by rewrite Ascii.eqb_refl in Hi.
  - intros (c' & f'' & [= <- <-] & H) y Hy.
    apply list_elem_of_In, list_elem_of_lookup in Hy as [i Hi].
    destruct (Ascii.eqb_spec c y) as [->|]; [|done]. by apply H in Hi.
Qed.

Section OneMarker.

Variables (x : ascii) (m : text).
Local Abbreviation old := (x :: m).

(** An occurrence of [old] cannot begin at the start of a block from which
    no occurrence can start. *)
Lemma no_start_head (c : ascii) (g r : text) :
  no_start old (c :: g) = true -> startswith ((c :: g) ++ r) old = false.
Proof.
  cbn [no_start]. rewrite !andb_true_iff, !negb_true_iff.
  intros [[H1 H2] _]. apply not_true_is_false. intros H.
  destruct (decide (length old <= length (c :: g))) as [Hl|Hl].
  - rewrite startswith_app_fit in H by done. congruence.
  - apply startswith_short in H; [congruence|lia].
Qed.

Lemma no_start_tail (c : ascii) (g : text) :
  no_start old (c :: g) = true -> no_start old g = true.
Proof. cbn [no_start]. by intros [_ H]%andb_true_iff. Qed.

(** The scan copies such a block. *)
Lemma replace_no_start (g r new : text) :
  no_start old g = true ->
  replace (g ++ r) old new = g ++ replace r old new.
Proof.
  induction g as [|c g IH]; intros H; [done|].
  rewrite <- app_comm_cons, replace_miss.
  - cbn [app]. f_equal. apply IH. by apply no_start_tail in H.
  - by apply (no_start_head c g r).
Qed.

(** Before a block with a fresh first character, an occurrence of [old] is
    decided by what precedes the block. *)
Lemma startswith_before_fresh (u b v : text) :
  first_fresh old b = true -> u <> [] ->
  startswith (u ++ b ++ v) old = startswith u old.
Proof.
  intros (c & b' & -> & Hc)%first_fresh_spec Hu.
  destruct (decide (length old <= length u)) as [Hl|Hl].
  - by apply startswith_app_fit.
  - destruct (startswith u old) eqn:E1.
    { apply startswith_length in E1. lia. }
    apply not_true_is_false. intros H.
    rewrite <- app_comm_cons in H. apply startswith_reach in H; [|lia].
    destruct u as [|z u]; [done|]. simpl in H. by apply Hc in H.
Qed.

(** The scan of a text around an inert block is the scan of what precedes
    the block, the block, and the scan of what follows it. *)
Lemma replace_app_inert (u b v new : text) :
  inert old b = true ->
  replace (u ++ b ++ v) old new = replace u old new ++ b ++ replace v old new.
Proof.
  intros [Hf Hn]%andb_true_iff.
  induction u as [|r IH|c s E IH] using (replace_scan_ind x m).
  - rewrite replace_nil, !app_nil_l. by apply replace_no_start.
  - rewrite <- app_assoc, !replace_hit, IH. by rewrite app_assoc.
  - rewrite <- app_comm_cons, !replace_miss; [by rewrite IH|done|].
    rewrite app_comm_cons, startswith_before_fresh; done.
Qed.

(** When the first character of [old] does not occur again in [old], an
    occurrence of [old] is always found by the scan, wherever it stands. *)
Lemma replace_app_marker (u v new : text) :
  first_fresh old old = true ->
  replace (u ++ old ++ v) old new
  = replace u old new ++ new ++ replace v old new.
Proof.
  intros Hf.
  induction u as [|r IH|c s E IH] using (replace_scan_ind x m).
  - rewrite replace_nil, !app_nil_l. apply replace_hit.
  - rewrite <- app_assoc, !replace_hit, IH. by rewrite app_assoc.
  - rewrite <- app_comm_cons, !replace_miss; [by rewrite IH|done|].
    rewrite app_comm_cons, startswith_before_fresh; done.
Qed.

End OneMarker.

End Inert.

(** ** Two markers: when the two substitutions commute *)

Section TwoMarkers.

Import Str.

(** Replacing [old] by an inert fragment [f] does not change where the
    other marker [mk] is found: the result begins with a suffix of [mk]
    exactly when the original does. *)
Lemma startswith_replace_inert (x : ascii) (m mk f : text) :
  inert mk (x :: m) = true -> inert mk f = true ->
  forall s t, t `suffix_of` mk ->
  startswith (replace s (x :: m) f) t = startswith s t.
Proof.
  intros [Hxf Hxn]%andb_true_iff [Hff Hfn]%andb_true_iff s.
  induction s as [|r IH|c s E IH] using (replace_scan_ind x m);
    intros t [k Hk]; [done| |].
  - rewrite replace_hit. destruct t as [|y t]; [by rewrite !startswith_nil|].
    destruct k as [|z k].
    + simpl in Hk. subst mk.
      apply first_fresh_spec in Hff as (c & f' & -> & _).
      rewrite (no_start_head y t c f' _ Hfn).
      by rewrite (no_start_head y t x m r Hxn).
    + assert (Hy : exists i, tail mk !! i = Some y).
      { exists (length k). subst mk. simpl.
        by rewrite list_lookup_middle. }
      destruct Hy as [i Hi].
      apply first_fresh_spec in Hff as (c & f' & -> & Hc).
      apply first_fresh_spec in Hxf as (x' & m' & [= <- <-] & Hx).
      simpl. destruct (Ascii.eqb_spec c y) as [->|]; [by apply Hc in Hi|].
      destruct (Ascii.eqb_spec x y) as [->|]; [by apply Hx in Hi|done].
  - rewrite replace_miss by done. destruct t as [|y t]; [done|].
    simpl. destruct (Ascii.eqb c y); [|done].
    apply IH. exists (k ++ [y]). by rewrite <- app_assoc.
Qed.

Variables (xa xb : ascii) (ta tb : text).
Local Abbreviation ma := (xa :: ta).
Local Abbreviation mb := (xb :: tb).

(** The two substitutions commute when neither marker can overlap the other
    and each fragment is inert for the marker of the other fragment. *)
Lemma replace_commute (fa fb : text) :
  inert mb ma = true -> inert ma mb = true ->
  inert mb fa = true -> inert ma fb = true ->
  forall s,
    replace (replace s ma fa) mb fb = replace (replace s mb fb) ma fa.
Proof.
  intros Hba Hab Hfa Hfb s.
  induction s as [s IH] using (induction_ltof1 _ (@length ascii)).
  unfold ltof in IH. destruct s as [|c s]; [done|].
  destruct (startswith (c :: s) ma) eqn:Ea;
    [|destruct (startswith (c :: s) mb) eqn:Eb].
  - apply startswith_inv in Ea. rewrite Ea.
    set (r := drop (length ma) (c :: s)).
    assert (Hr : length r < length (c :: s)).
    { subst r. rewrite length_drop. simpl. lia. }
    apply andb_true_iff in Hba as [_ Hba]. apply andb_true_iff in Hfa as [_ Hfa].
    repeat (rewrite replace_hit || rewrite replace_no_start by done).
    by rewrite IH.
  - apply startswith_inv in Eb. rewrite Eb.
    set (r := drop (length mb) (c :: s)).
    assert (Hr : length r < length (c :: s)).
    { subst r. rewrite length_drop. simpl. lia. }
    apply andb_true_iff in Hab as [_ Hab]. apply andb_true_iff in Hfb as [_ Hfb].
    repeat (rewrite replace_hit || rewrite replace_no_start by done).
    by rewrite IH.
  - assert (Ea' : startswith (replace (c :: s) mb fb) ma = false).
    { by rewrite (startswith_replace_inert xb tb ma fb). }
    assert (Eb' : startswith (replace (c :: s) ma fa) mb = false).
    { by rewrite (startswith_replace_inert xa ta mb fa). }
    rewrite replace_miss in Ea', Eb' by done.
    rewrite (replace_miss xa ta c s), (replace_miss xb tb c s) by done.
    rewrite !replace_miss by done. f_equal. apply IH. simpl. lia.
Qed.

End TwoMarkers.

(** ** The two markers *)

Section Markers.

Import Str.

Lemma subst_absent_A (style doc : text) :
  contains doc M_A = false -> subst_A style doc = doc.
Proof. apply replace_absent. Qed.

Lemma subst_absent_B (js doc : text) :
  contains doc M_B = false -> subst_B js doc = doc.
Proof. apply replace_absent. Qed.

(** Every occurrence of a marker is replaced, wherever it stands. *)
Lemma subst_A_at (style u v : text) :
  subst_A style (u ++ M_A ++ v) = subst_A style u ++ style ++ subst_A style v.
Proof. exact (replace_app_marker "<" (tail M_A) u v style eq_refl). Qed.

Lemma subst_B_at (js u v : text) :
  subst_B js (u ++ M_B ++ v) = subst_B js u ++ js ++ subst_B js v.
Proof. exact (replace_app_marker "<" (tail M_B) u v js eq_refl). Qed.

(** A substitution leaves the occurrences of the other marker in place. *)
Lemma subst_A_keeps_B (style u v : text) :
  subst_A style (u ++ M_B ++ v) = subst_A style u ++ M_B ++ subst_A style v.
Proof. exact (replace_app_inert "<" (tail M_A) u M_B v style eq_refl). Qed.

Lemma subst_B_keeps_A (js u v : text) :
  subst_B js (u ++ M_A ++ v) = subst_B js u ++ M_A ++ subst_B js v.
Proof. exact (replace_app_inert "<" (tail M_B) u M_A v js eq_refl). Qed.

(** The guarded substitution of [build_preview.py] is the plain one. *)
Lemma guarded_subst (doc marker new : text) :
  (if contains doc marker then replace doc marker new else doc)
  = replace doc marker new.
Proof.
  destruct (contains doc marker) eqn:E; [done|]. by rewrite replace_absent.
Qed.

End Markers.

(** ** Running the scripts *)

Section Runs.

Lemma read_file_ok (w : World) (p : path) (t : text) :
  readable w p t -> read_file p w = (w, inr t).
Proof.
  intros [Hr Hf]. unfold read_file. rewrite decide_False by done.
  by rewrite Hf.
Qed.

Lemma read_file_fail (w : World) (p : path) :
  (forall t, ~ readable w p t) -> exists e, read_file p w = (w, inl e).
Proof.
  intros H. unfold read_file. destruct (decide (p ∈ unreadable w)); [eauto|].
  destruct (files w !! p) as [t|] eqn:E; [|eauto].
  by destruct (H t).
Qed.

Lemma write_file_ok (w : World) (p : path) (t : text) :
  writable w p ->
  write_file p t w
  = (mkWorld (<[p := t]> (files w)) (unreadable w) (unwritable w) (stdout w),
     inr tt).
Proof. intros H. unfold write_file. by rewrite decide_False. Qed.

Lemma bind_run {A B : Type} (c : IO A) (k : A -> IO B) (w : World) :
  (c ≫= k) w
  = match c w with
    | (w', inl e) => (w', inl e)
    | (w', inr a) => k a w'
    end.
Proof. done. Qed.

(** A run of [assemble_preview.py] whose reads and write succeed. *)
Lemma assemble_run (w : World) (index style js : text) :
  inputs w index style js -> writable w AssemblePreview.preview_path ->
  AssemblePreview.main w
  = (mkWorld (<[AssemblePreview.preview_path := A_then_B index style js]>
                (files w))
       (unreadable w) (unwritable w) (stdout w ++ [created_A]),
     inr tt).
Proof.
  intros (Hi & Hs & Hj) Hw. unfold AssemblePreview.main.
  rewrite bind_run, (read_file_ok _ _ _ Hi).
  rewrite bind_run, (read_file_ok _ _ _ Hs).
  rewrite bind_run, (read_file_ok _ _ _ Hj).
  cbv zeta. rewrite bind_run, write_file_ok by done. done.
Qed.

(** One guarded substitution of [build_preview.py]: a status line is
    printed and the marker is replaced. *)
Lemma guarded_step (found warning : string) (doc marker new : text)
    (w : World) :
  (if Str.contains doc marker
   then _ ← print found; mret (Str.replace doc marker new)
   else _ ← print warning; mret doc) w
  = (mkWorld (files w) (unreadable w) (unwritable w)
       (stdout w ++ [status found warning doc marker]),
     inr (Str.replace doc marker new)).
Proof.
  unfold status. destruct (Str.contains doc marker) eqn:E; [done|].
  by rewrite (replace_absent _ _ _ E).
Qed.

(** A run of [build_preview.py] whose reads and write succeed. *)
Lemma build_run (w : World) (index style js : text) :
  inputs w index style js -> writable w BuildPreview.preview_path ->
  BuildPreview.main w
  = (mkWorld (<[BuildPreview.preview_path := A_then_B index style js]>
                (files w))
       (unreadable w) (unwritable w)
       (stdout w ++ [status found_A warning_A index M_A;
                     status found_B warning_B (subst_A style index) M_B;
                     created_B (A_then_B index style js)]),
     inr tt).
Proof.
  intros (Hi & Hs & Hj) Hw. unfold BuildPreview.main.
  change BuildPreview.index_path with AssemblePreview.index_path.
  change BuildPreview.style_path with AssemblePreview.style_path.
  change BuildPreview.js_path with AssemblePreview.js_path.
  rewrite bind_run, (read_file_ok _ _ _ Hi).
  rewrite bind_run, (read_file_ok _ _ _ Hs).
  rewrite bind_run, (read_file_ok _ _ _ Hj).
  rewrite bind_run, guarded_step.
  rewrite bind_run, guarded_step.
  rewrite bind_run, write_file_ok by done.
  unfold print. cbn [stdout files unreadable unwritable].
  rewrite <- !app_assoc. reflexivity.
Qed.

End Runs.

(** ** Sample inputs *)

Section Samples.

Lemma inputs_world_of (index style js : text) :
  inputs (world_of index style js) index style js.
Proof.
  unfold inputs, readable, world_of; cbn [files unreadable].
  split_and!; try apply not_elem_of_empty.
  - apply lookup_insert_eq.
  - rewrite lookup_insert_ne by (apply String.eqb_neq; reflexivity).
    apply lookup_insert_eq.
  - rewrite !lookup_insert_ne by (apply String.eqb_neq; reflexivity).
    apply lookup_insert_eq.
Qed.

Lemma writable_world_of (index style js : text) (p : path) :
  writable (world_of index style js) p.
Proof. apply not_elem_of_empty. Qed.

End Samples.

(** ** The output text *)

(** C1. For every main document, stylesheet fragment and javascript
    fragment that the scripts read, the text written to the output file is
    the main document in which every occurrence of the Stylesheet marker is
    replaced by the stylesheet fragment and then, in that document, every
    occurrence of the JavaScript marker is replaced by the javascript
    fragment.  Substitute-all: an occurrence is replaced wherever it stands,
    and a document without the marker is unchanged. *)
Theorem C1_output_is_substitute_all (w : World) (index style js : text) :
  inputs w index style js ->
  (writable w AssemblePreview.preview_path ->
   written AssemblePreview.main AssemblePreview.preview_path w
   = Some (subst_B js (subst_A style index))) /\
  (writable w BuildPreview.preview_path ->
   written BuildPreview.main BuildPreview.preview_path w
   = Some (subst_B js (subst_A style index))) /\
  (forall u v,
     subst_A style (u ++ M_A ++ v)
     = subst_A style u ++ style ++ subst_A style v) /\
  (forall u v,
     subst_B js (u ++ M_B ++ v) = subst_B js u ++ js ++ subst_B js v) /\
  (forall doc, Str.contains doc M_A = false -> subst_A style doc = doc) /\
  (forall doc, Str.contains doc M_B = false -> subst_B js doc = doc).
Proof.
  intros Hin. repeat split.
  - intros Hw. unfold written, world_after.
    rewrite (assemble_run w index style js Hin Hw). apply lookup_insert_eq.
  - intros Hw. unfold written, world_after.
    rewrite (build_run w index style js Hin Hw). apply lookup_insert_eq.
  - intros u v. apply subst_A_at.
  - intros u v. apply subst_B_at.
  - apply subst_absent_A.
  - apply subst_absent_B.
Qed.

(** Scenario 1 of the specification, for both scripts. *)
Lemma C1_scenario_1 :
  let w := world_of
             (txt "<html><?!= include('Stylesheet'); ?><?!= include('JavaScript'); ?></html>")
             (txt "<style>x</style>") (txt "<script>y</script>") in
  written AssemblePreview.main AssemblePreview.preview_path w
  = Some (txt "<html><style>x</style><script>y</script></html>") /\
  written BuildPreview.main BuildPreview.preview_path w
  = Some (txt "<html><style>x</style><script>y</script></html>").
Proof.
  intros w.
  destruct (C1_output_is_substitute_all w _ _ _ (inputs_world_of _ _ _))
    as (HA & HB & _).
  split.
  - rewrite HA by apply writable_world_of. reflexivity.
  - rewrite HB by apply writable_world_of. reflexivity.
Defined.

(** C9. Given the same three input texts, [assemble_preview.py] and
    [build_preview.py] write the same output text (each to its own
    destination), whatever else the two runs find in the file system. *)
Theorem C9_scripts_agree (w1 w2 : World) (index style js : text) :
  inputs w1 index style js -> inputs w2 index style js ->
  writable w1 AssemblePreview.preview_path ->
  writable w2 BuildPreview.preview_path ->
  written AssemblePreview.main AssemblePreview.preview_path w1
  = written BuildPreview.main BuildPreview.preview_path w2 /\
  is_Some (written AssemblePreview.main AssemblePreview.preview_path w1).
Proof.
  intros H1 H2 Hw1 Hw2. unfold written, world_after.
  rewrite (assemble_run w1 index style js H1 Hw1).
  rewrite (build_run w2 index style js H2 Hw2).
  cbn [fst files]. rewrite !lookup_insert_eq. eauto.
Qed.

Lemma C9_witness :
  let w := world_of (txt "a<?!= include('JavaScript'); ?>b")
             (txt "<style>x</style>") (txt "<script>y</script>") in
  written AssemblePreview.main AssemblePreview.preview_path w
  = written BuildPreview.main BuildPreview.preview_path w /\
  is_Some (written AssemblePreview.main AssemblePreview.preview_path w).
Proof.
  intros w.
  apply (C9_scripts_agree w w _ _ _ (inputs_world_of _ _ _)
           (inputs_world_of _ _ _)); apply writable_world_of.
Defined.

(** ** A plain sufficient condition for inertness *)

Section Delimited.

Import Str.

Variable mid : text.
Hypothesis lt_fresh : "<"%char ∉ mid.
Hypothesis gt_fresh : ">"%char ∉ mid.
Local Abbreviation mk := ("<"%char :: mid ++ [">"%char]).

(** A non-empty text that ends with [>] is a prefix of the marker only if
    it is the whole marker. *)
Lemma prefix_ending_gt (g r : text) :
  mk = g ++ r -> last g = Some ">"%char -> r = [].
Proof.
  intros E Hl. destruct g as [|c g]; [done|].
  injection E as Ec E. subst c.
  destruct g as [|c' g' _] using rev_ind.
  - simpl in Hl. by injection Hl.
  - rewrite app_comm_cons, last_snoc in Hl. injection Hl as ->.
    destruct r as [|z r _] using rev_ind; [done|].
    rewrite !app_assoc in E. apply app_inj_tail in E as [E _].
    exfalso. apply gt_fresh. rewrite E. set_solver.
Qed.

Lemma no_start_ending_gt (g : text) :
  (g = [] \/ last g = Some ">"%char) -> contains g mk = false ->
  no_start mk g = true.
Proof.
  induction g as [|c g IH]; intros Hl Hc; [done|].
  destruct Hl as [|Hl]; [done|].
  cbn [no_start]. rewrite !andb_true_iff, !negb_true_iff. split_and!.
  - apply not_true_is_false. intros [r Hr]%startswith_spec.
    pose proof (prefix_ending_gt _ _ Hr Hl) as ->.
    rewrite app_nil_r in Hr. apply contains_head_false in Hc.
    rewrite <- Hr in Hc at 1. rewrite <- (app_nil_r mk) in Hc at 1.
    by rewrite startswith_app in Hc.
  - by apply contains_head_false.
  - apply IH; [|by apply contains_tail_false in Hc].
    destruct g as [|c' g]; [by left|right]. exact Hl.
Qed.

(** A fragment that begins with [<], ends with [>] and does not contain the
    marker is inert for it. *)
Lemma delimited_inert (f : text) :
  head f = Some "<"%char -> last f = Some ">"%char ->
  contains f mk = false -> inert mk f = true.
Proof.
  intros Hh Hl Hc. unfold inert. apply andb_true_iff. split.
  - destruct f as [|c f]; [done|]. injection Hh as ->.
    cbn [first_fresh tail]. apply forallb_forall. intros y Hy.
    apply list_elem_of_In, elem_of_app in Hy as [Hy|Hy].
    + destruct (Ascii.eqb_spec "<" y) as [<-|]; done.
    + apply list_elem_of_singleton in Hy as ->. done.
  - apply no_start_ending_gt; [by right|done].
Qed.

End Delimited.

(** For the two markers of the scripts. *)
Lemma delimited_inert_B (style : text) :
  head style = Some "<"%char -> last style = Some ">"%char ->
  Str.contains style M_B = false -> inert M_B style = true.
Proof.
  apply (delimited_inert (txt "?!= include('JavaScript'); ?"));
    intros H; vm_compute in H;
    repeat (apply elem_of_cons in H as [H|H]; [discriminate H|]);
    by apply elem_of_nil in H.
Qed.

Lemma delimited_inert_A (js : text) :
  head js = Some "<"%char -> last js = Some ">"%char ->
  Str.contains js M_A = false -> inert M_A js = true.
Proof.
  apply (delimited_inert (txt "?!= include('Stylesheet'); ?"));
    intros H; vm_compute in H;
    repeat (apply elem_of_cons in H as [H|H]; [discriminate H|]);
    by apply elem_of_nil in H.
Qed.

(** ** Order of the two substitutions *)

(** The two orders differ when the stylesheet fragment brings in the
    JavaScript marker: A before B expands it, B before A leaves it. *)
Lemma C2_order_matters :
  A_then_B M_A M_B (txt "X") = txt "X" /\
  B_then_A M_A M_B (txt "X") = M_B /\
  A_then_B M_A M_B (txt "X") <> B_then_A M_A M_B (txt "X").
Proof. split_and!; [reflexivity|reflexivity|]. vm_compute. discriminate. Qed.

(** C2, amended.  Performing the Stylesheet substitution first and the
    JavaScript substitution second gives the same text as the opposite
    order whenever each fragment is inert for the marker of the other one:
    the fragment is not empty, its first character does not occur in the
    other marker after position 0, and no suffix of the fragment is a
    prefix of, or begins with, the other marker. *)
Theorem C2_commute_when_inert (index style js : text) :
  inert M_B style = true -> inert M_A js = true ->
  A_then_B index style js = B_then_A index style js.
Proof.
  intros Hs Hj. unfold A_then_B, B_then_A, subst_A, subst_B.
  exact (replace_commute "<" "<" (tail M_A) (tail M_B) style js
           eq_refl eq_refl Hs Hj index).
Qed.

Lemma C2_witness :
  A_then_B
    (txt "<html><?!= include('Stylesheet'); ?><?!= include('JavaScript'); ?></html>")
    (txt "<style>x</style>") (txt "<script>y</script>")
  = B_then_A
    (txt "<html><?!= include('Stylesheet'); ?><?!= include('JavaScript'); ?></html>")
    (txt "<style>x</style>") (txt "<script>y</script>").
Proof. apply C2_commute_when_inert; reflexivity. Defined.

(** ** Marker text inside the fragments *)

(** C6. An occurrence of a marker inside its own fragment is reproduced
    verbatim in the output and is not expanded again: where the main
    document has the Stylesheet marker and the stylesheet fragment itself
    contains that marker, the output has the marker literal at that place
    of the inserted copy; where the main document has the JavaScript marker
    and the javascript fragment itself contains that marker, the inserted
    copy of the fragment stands in the output as it is. *)
Theorem C6_own_marker_not_reexpanded :
  (forall u v s1 s2 js : text,
     let style := s1 ++ M_A ++ s2 in
     A_then_B (u ++ M_A ++ v) style js
     = subst_B js (subst_A style u ++ s1) ++ M_A
       ++ subst_B js (s2 ++ subst_A style v)) /\
  (forall u v style j1 j2 : text,
     let js := j1 ++ M_B ++ j2 in
     A_then_B (u ++ M_B ++ v) style js
     = subst_B js (subst_A style u) ++ (j1 ++ M_B ++ j2)
       ++ subst_B js (subst_A style v)) /\
  (forall js : text,
     A_then_B M_A (txt "a" ++ M_A ++ txt "b") js = txt "a" ++ M_A ++ txt "b") /\
  (forall style : text,
     A_then_B M_B style (txt "a" ++ M_B ++ txt "b") = txt "a" ++ M_B ++ txt "b").
Proof.
  split_and!.
  - intros u v s1 s2 js style. unfold A_then_B.
    rewrite subst_A_at. subst style.
    rewrite <- !app_assoc. rewrite -> (app_assoc (subst_A _ u) s1).
    by rewrite subst_B_keeps_A.
  - intros u v style j1 j2 js. unfold A_then_B.
    by rewrite subst_A_keeps_B, subst_B_at.
  - intros js. reflexivity.
  - intros style. reflexivity.
Qed.

(** C10. Marker text brought into the document by the first substitution
    is consumed by the second one: where the main document has the
    Stylesheet marker and the stylesheet fragment contains the JavaScript
    marker, the output has the javascript fragment at that place of the
    inserted copy, not the marker literal. *)
Theorem C10_introduced_marker_is_expanded :
  (forall u v s1 s2 js : text,
     let style := s1 ++ M_B ++ s2 in
     A_then_B (u ++ M_A ++ v) style js
     = subst_B js (subst_A style u ++ s1) ++ js
       ++ subst_B js (s2 ++ subst_A style v)) /\
  A_then_B (txt "<html><?!= include('Stylesheet'); ?></html>")
    (txt "<style/><?!= include('JavaScript'); ?>") (txt "<script/>")
  = txt "<html><style/><script/></html>".
Proof.
  split; [|reflexivity].
  intros u v s1 s2 js style. unfold A_then_B.
  rewrite subst_A_at. subst style.
  rewrite <- !app_assoc. rewrite -> (app_assoc (subst_A _ u) s1).
  by rewrite subst_B_at.
Qed.

(** ** Console output and missing markers *)

Section Console.

Lemma printed_assemble (w : World) (index style js : text) :
  inputs w index style js -> writable w AssemblePreview.preview_path ->
  printed AssemblePreview.main w = [created_A].
Proof.
  intros Hin Hw. unfold printed, world_after.
  rewrite (assemble_run w index style js Hin Hw). cbn [fst stdout].
  by rewrite drop_app_length.
Qed.

Lemma printed_build (w : World) (index style js : text) :
  inputs w index style js -> writable w BuildPreview.preview_path ->
  printed BuildPreview.main w
  = [status found_A warning_A index M_A;
     status found_B warning_B (subst_A style index) M_B;
     created_B (A_then_B index style js)].
Proof.
  intros Hin Hw. unfold printed, world_after.
  rewrite (build_run w index style js Hin Hw). cbn [fst stdout].
  by rewrite drop_app_length.
Qed.

Lemma written_assemble (w : World) (index style js : text) :
  inputs w index style js -> writable w AssemblePreview.preview_path ->
  written AssemblePreview.main AssemblePreview.preview_path w
  = Some (A_then_B index style js).
Proof.
  intros Hin Hw. unfold written, world_after.
  rewrite (assemble_run w index style js Hin Hw). apply lookup_insert_eq.
Qed.

Lemma written_build (w : World) (index style js : text) :
  inputs w index style js -> writable w BuildPreview.preview_path ->
  written BuildPreview.main BuildPreview.preview_path w
  = Some (A_then_B index style js).
Proof.
  intros Hin Hw. unfold written, world_after.
  rewrite (build_run w index style js Hin Hw). apply lookup_insert_eq.
Qed.

Lemma outcome_assemble (w : World) (index style js : text) :
  inputs w index style js -> writable w AssemblePreview.preview_path ->
  outcome AssemblePreview.main w = inr tt.
Proof.
  intros Hin Hw. unfold outcome.
  by rewrite (assemble_run w index style js Hin Hw).
Qed.

Lemma outcome_build (w : World) (index style js : text) :
  inputs w index style js -> writable w BuildPreview.preview_path ->
  outcome BuildPreview.main w = inr tt.
Proof.
  intros Hin Hw. unfold outcome.
  by rewrite (build_run w index style js Hin Hw).
Qed.

End Console.

(** The JavaScript marker is absent from the main document, and yet
    [build_preview.py] prints no warning for it: the stylesheet fragment
    brings the marker in before the second check is made. *)
Lemma C3_no_warning_for_absent_marker :
  let w := world_of M_A M_B (txt "X") in
  inputs w M_A M_B (txt "X") /\
  writable w BuildPreview.preview_path /\
  Str.contains M_A M_B = false /\
  printed BuildPreview.main w
  = [found_A; found_B; created_B (txt "X")] /\
  warning_B ∉ printed BuildPreview.main w.
Proof.
  intros w. split_and!.
  - apply inputs_world_of.
  - apply writable_world_of.
  - reflexivity.
  - reflexivity.
  - assert (E : printed BuildPreview.main w
                = [found_A; found_B; created_B (txt "X")]) by reflexivity.
    rewrite E. intros H. vm_compute in H.
    repeat (apply elem_of_cons in H as [H|H]; [discriminate H|]).
    by apply elem_of_nil in H.
Qed.

(** C3, amended.  A missing marker is never fatal.  In [build_preview.py]
    the console has one status line per marker, followed by the line that
    names the destination; the status of the Stylesheet marker is decided on
    the main document and is a warning when the marker does not occur
    there; the status of the JavaScript marker is decided on the document
    after the Stylesheet substitution and is a warning when the marker does
    not occur there; in every case the other marker is processed and the
    output file is written.  [assemble_preview.py] does not fail either and
    writes the output file, but prints no status line for the markers. *)
Theorem C3_missing_marker_not_fatal (w : World) (index style js : text) :
  inputs w index style js ->
  (writable w BuildPreview.preview_path ->
   outcome BuildPreview.main w = inr tt /\
   written BuildPreview.main BuildPreview.preview_path w
   = Some (A_then_B index style js) /\
   printed BuildPreview.main w
   = [if Str.contains index M_A then found_A else warning_A;
      if Str.contains (subst_A style index) M_B then found_B else warning_B;
      created_B (A_then_B index style js)] /\
   (Str.contains index M_A = false ->
    printed BuildPreview.main w
    = [warning_A;
       if Str.contains index M_B then found_B else warning_B;
       created_B (subst_B js index)] /\
    written BuildPreview.main BuildPreview.preview_path w
    = Some (subst_B js index)) /\
   (Str.contains (subst_A style index) M_B = false ->
    printed BuildPreview.main w
    = [if Str.contains index M_A then found_A else warning_A;
       warning_B;
       created_B (subst_A style index)] /\
    written BuildPreview.main BuildPreview.preview_path w
    = Some (subst_A style index))) /\
  (writable w AssemblePreview.preview_path ->
   outcome AssemblePreview.main w = inr tt /\
   written AssemblePreview.main AssemblePreview.preview_path w
   = Some (A_then_B index style js) /\
   printed AssemblePreview.main w = [created_A]).
Proof.
  intros Hin. split; intros Hw.
  - rewrite (outcome_build w index style js Hin Hw).
    rewrite (written_build w index style js Hin Hw).
    rewrite (printed_build w index style js Hin Hw).
    unfold status. split_and!; try done.
    + intros E. unfold A_then_B. rewrite (subst_absent_A style index E).
      by rewrite E.
    + intros E. unfold A_then_B. rewrite (subst_absent_B js _ E).
      by rewrite E.
  - rewrite (outcome_assemble w index style js Hin Hw).
    rewrite (written_assemble w index style js Hin Hw).
    by rewrite (printed_assemble w index style js Hin Hw).
Qed.

(** Scenario 2 of the specification on [build_preview.py]: the main
    document has the Stylesheet marker only. *)
Lemma C3_scenario_2 :
  let w := world_of (txt "<html><?!= include('Stylesheet'); ?></html>")
             (txt "<style>x</style>") (txt "<script>y</script>") in
  printed BuildPreview.main w
  = [found_A; warning_B; created_B (txt "<html><style>x</style></html>")] /\
  written BuildPreview.main BuildPreview.preview_path w
  = Some (txt "<html><style>x</style></html>").
Proof.
  intros w.
  destruct (C3_missing_marker_not_fatal w _ _ _ (inputs_world_of _ _ _))
    as [HB _].
  destruct (HB (writable_world_of _ _ _ _)) as (_ & _ & _ & _ & H).
  destruct (H eq_refl) as [Hp Hw]. split; [exact Hp|exact Hw].
Defined.

(** ** Failed reads *)

Section FailedReads.

Lemma read_file_cases (w : World) (p : path) :
  (exists t, readable w p t /\ read_file p w = (w, inr t)) \/
  (exists e, read_file p w = (w, inl e)).
Proof.
  unfold read_file, readable.
  destruct (decide (p ∈ unreadable w)); [right; eauto|].
  destruct (files w !! p) as [t|]; [left|right]; eauto.
Qed.

(** A script whose first three steps are the three reads raises, in the
    world it started in, as soon as one of the reads fails. *)
Lemma three_reads_fail (k : text -> text -> text -> IO unit) (w : World)
    (p1 p2 p3 : path) :
  (forall t, ~ readable w p1 t) \/ (forall t, ~ readable w p2 t) \/
  (forall t, ~ readable w p3 t) ->
  exists e,
    (a ← read_file p1; b ← read_file p2; c ← read_file p3; k a b c) w
    = (w, inl e).
Proof.
  intros H. rewrite bind_run.
  destruct (read_file_cases w p1) as [(a & Ha & ->)|(e & ->)]; [|eauto].
  rewrite bind_run.
  destruct (read_file_cases w p2) as [(b & Hb & ->)|(e & ->)]; [|eauto].
  rewrite bind_run.
  destruct (read_file_cases w p3) as [(c & Hc & ->)|(e & ->)]; [|eauto].
  destruct H as [H|[H|H]]; by edestruct H.
Qed.

End FailedReads.

(** C4. If one of the three input files is missing or cannot be read, the
    run ends with the error of the read, in the world it started in:
    nothing is printed and no file, the output file included, is created or
    modified. *)
Theorem C4_failed_read_aborts (w : World) :
  (forall t, ~ readable w AssemblePreview.index_path t) \/
  (forall t, ~ readable w AssemblePreview.style_path t) \/
  (forall t, ~ readable w AssemblePreview.js_path t) ->
  (exists e, AssemblePreview.main w = (w, inl e)) /\
  (exists e, BuildPreview.main w = (w, inl e)) /\
  (forall p, written AssemblePreview.main p w = files w !! p) /\
  (forall p, written BuildPreview.main p w = files w !! p).
Proof.
  intros H.
  assert (HA : exists e, AssemblePreview.main w = (w, inl e))
    by by apply three_reads_fail.
  assert (HB : exists e, BuildPreview.main w = (w, inl e))
    by by apply three_reads_fail.
  split_and!; [done|done| |]; intros p; unfold written, world_after.
  - destruct HA as [e ->]. done.
  - destruct HB as [e ->]. done.
Qed.

(** The index document is missing. *)
Lemma C4_witness :
  let w := mkWorld (<[AssemblePreview.style_path := txt "<style>x</style>"]>
                      (<[AssemblePreview.preview_path := txt "old"]> ∅))
             ∅ ∅ [] in
  AssemblePreview.main w
  = (w, inl (FileNotFoundError AssemblePreview.index_path)) /\
  BuildPreview.main w
  = (w, inl (FileNotFoundError BuildPreview.index_path)) /\
  written AssemblePreview.main AssemblePreview.preview_path w
  = Some (txt "old").
Proof.
  intros w.
  assert (H : forall t, ~ readable w AssemblePreview.index_path t).
  { intros t [_ Ht]. vm_compute in Ht. discriminate Ht. }
  destruct (C4_failed_read_aborts w (or_introl H)) as (_ & _ & HA & _).
  split_and!; [reflexivity|reflexivity|].
  rewrite HA. reflexivity.
Defined.

(** ** Runs on identical inputs *)

Section Reruns.

Lemma preview_A_not_input :
  AssemblePreview.preview_path <> AssemblePreview.index_path /\
  AssemblePreview.preview_path <> AssemblePreview.style_path /\
  AssemblePreview.preview_path <> AssemblePreview.js_path.
Proof. split_and!; apply String.eqb_neq; reflexivity. Qed.

Lemma preview_B_not_input :
  BuildPreview.preview_path <> AssemblePreview.index_path /\
  BuildPreview.preview_path <> AssemblePreview.style_path /\
  BuildPreview.preview_path <> AssemblePreview.js_path.
Proof. split_and!; apply String.eqb_neq; reflexivity. Qed.

(** Writing a file that is not an input leaves the inputs as they are. *)
Lemma inputs_after_write (w : World) (p : path) (t : text) (out : list string)
    (index style js : text) :
  p <> AssemblePreview.index_path -> p <> AssemblePreview.style_path ->
  p <> AssemblePreview.js_path ->
  inputs w index style js ->
  inputs (mkWorld (<[p := t]> (files w)) (unreadable w) (unwritable w) out)
    index style js.
Proof.
  intros H1 H2 H3 ([? ?] & [? ?] & [? ?]).
  unfold inputs, readable; cbn [files unreadable].
  rewrite !lookup_insert_ne by done. done.
Qed.

End Reruns.

(** C5. The output is a function of the three input texts alone, and a run
    can be repeated: two runs of a script in worlds that hold the same
    three input texts write the same output text, whatever else differs;
    and a second run that follows a first one finds the same inputs and
    leaves every file, the output file included, exactly as the first run
    left it. *)
Theorem C5_same_inputs_same_output (w1 w2 : World) (index style js : text) :
  inputs w1 index style js -> inputs w2 index style js ->
  (writable w1 AssemblePreview.preview_path ->
   writable w2 AssemblePreview.preview_path ->
   written AssemblePreview.main AssemblePreview.preview_path w1
   = written AssemblePreview.main AssemblePreview.preview_path w2 /\
   is_Some (written AssemblePreview.main AssemblePreview.preview_path w1) /\
   files (world_after AssemblePreview.main
            (world_after AssemblePreview.main w1))
   = files (world_after AssemblePreview.main w1)) /\
  (writable w1 BuildPreview.preview_path ->
   writable w2 BuildPreview.preview_path ->
   written BuildPreview.main BuildPreview.preview_path w1
   = written BuildPreview.main BuildPreview.preview_path w2 /\
   is_Some (written BuildPreview.main BuildPreview.preview_path w1) /\
   files (world_after BuildPreview.main (world_after BuildPreview.main w1))
   = files (world_after BuildPreview.main w1)).
Proof.
  intros H1 H2. split; intros Hw1 Hw2.
  - rewrite (written_assemble w1 index style js H1 Hw1).
    rewrite (written_assemble w2 index style js H2 Hw2).
    split_and!; [done|eauto|].
    unfold world_after at 2 3.
    rewrite (assemble_run w1 index style js H1 Hw1). cbn [fst].
    destruct preview_A_not_input as (N1 & N2 & N3).
    unfold world_after.
    rewrite (assemble_run _ index style js
               (inputs_after_write _ _ _ _ _ _ _ N1 N2 N3 H1) Hw1).
    cbn [fst files]. apply insert_insert_eq.
  - rewrite (written_build w1 index style js H1 Hw1).
    rewrite (written_build w2 index style js H2 Hw2).
    split_and!; [done|eauto|].
    unfold world_after at 2 3.
    rewrite (build_run w1 index style js H1 Hw1). cbn [fst].
    destruct preview_B_not_input as (N1 & N2 & N3).
    unfold world_after.
    rewrite (build_run _ index style js
               (inputs_after_write _ _ _ _ _ _ _ N1 N2 N3 H1) Hw1).
    cbn [fst files]. apply insert_insert_eq.
Qed.

(** Two worlds with the inputs of scenario 1; the second one already holds
    an output file and console lines of an earlier run. *)
Lemma C5_witness :
  let index :=
    txt "<html><?!= include('Stylesheet'); ?><?!= include('JavaScript'); ?></html>" in
  let style := txt "<style>x</style>" in
  let js := txt "<script>y</script>" in
  let w1 := world_of index style js in
  let w2 := mkWorld (<[BuildPreview.preview_path := txt "stale"]> (files w1))
              ∅ ∅ ["earlier line"%string] in
  written BuildPreview.main BuildPreview.preview_path w1
  = written BuildPreview.main BuildPreview.preview_path w2 /\
  written AssemblePreview.main AssemblePreview.preview_path w1
  = written AssemblePreview.main AssemblePreview.preview_path w2.
Proof.
  intros index style js w1 w2.
  assert (H1 : inputs w1 index style js) by apply inputs_world_of.
  assert (H2 : inputs w2 index style js).
  { unfold inputs, readable.
    split_and!; try apply not_elem_of_empty; reflexivity. }
  destruct (C5_same_inputs_same_output w1 w2 index style js H1 H2)
    as [HA HB].
  split.
  - apply HB; apply not_elem_of_empty.
  - apply HA; apply not_elem_of_empty.
Defined.

(** ** A main document without a marker *)

(** The main document has no JavaScript marker, and the output is not the
    main document with the Stylesheet marker alone substituted: the marker
    brought in by the stylesheet fragment is substituted too. *)
Lemma C7_other_marker_not_alone :
  let w := world_of M_A M_B (txt "X") in
  Str.contains M_A M_B = false /\
  written AssemblePreview.main AssemblePreview.preview_path w
  = Some (txt "X") /\
  written BuildPreview.main BuildPreview.preview_path w = Some (txt "X") /\
  subst_A M_B M_A = M_B /\
  A_then_B M_A M_B (txt "X") <> subst_A M_B M_A.
Proof.
  intros w. split_and!; try reflexivity. vm_compute. discriminate.
Qed.

(** C7, amended.  When the main document has no Stylesheet marker, the
    output is the main document with the JavaScript marker alone
    substituted.  When the document has no JavaScript marker after the
    Stylesheet substitution, the output is the main document with the
    Stylesheet marker alone substituted.  For the empty main document the
    output is empty, no error is raised, the output file is created, and
    [build_preview.py] reports both markers as not found. *)
Theorem C7_missing_marker_output (w : World) (index style js : text) :
  inputs w index style js ->
  (Str.contains index M_A = false ->
   A_then_B index style js = subst_B js index) /\
  (Str.contains (subst_A style index) M_B = false ->
   A_then_B index style js = subst_A style index) /\
  (writable w AssemblePreview.preview_path ->
   (Str.contains index M_A = false ->
    written AssemblePreview.main AssemblePreview.preview_path w
    = Some (subst_B js index)) /\
   (Str.contains (subst_A style index) M_B = false ->
    written AssemblePreview.main AssemblePreview.preview_path w
    = Some (subst_A style index)) /\
   (index = [] ->
    outcome AssemblePreview.main w = inr tt /\
    written AssemblePreview.main AssemblePreview.preview_path w = Some [])) /\
  (writable w BuildPreview.preview_path ->
   (Str.contains index M_A = false ->
    written BuildPreview.main BuildPreview.preview_path w
    = Some (subst_B js index)) /\
   (Str.contains (subst_A style index) M_B = false ->
    written BuildPreview.main BuildPreview.preview_path w
    = Some (subst_A style index)) /\
   (index = [] ->
    outcome BuildPreview.main w = inr tt /\
    written BuildPreview.main BuildPreview.preview_path w = Some [] /\
    printed BuildPreview.main w = [warning_A; warning_B; created_B []])).
Proof.
  intros Hin.
  assert (EA : Str.contains index M_A = false ->
               A_then_B index style js = subst_B js index).
  { intros E. unfold A_then_B. by rewrite (subst_absent_A style index E). }
  assert (EB : Str.contains (subst_A style index) M_B = false ->
               A_then_B index style js = subst_A style index).
  { intros E. unfold A_then_B. by rewrite (subst_absent_B js _ E). }
  split_and!; [done|done| |]; intros Hw.
  - rewrite (written_assemble w index style js Hin Hw).
    rewrite (outcome_assemble w index style js Hin Hw).
    split_and!; [by intros ->%EA|by intros ->%EB|by intros ->].
  - rewrite (written_build w index style js Hin Hw).
    rewrite (outcome_build w index style js Hin Hw).
    rewrite (printed_build w index style js Hin Hw).
    split_and!; [by intros ->%EA|by intros ->%EB|by intros ->].
Qed.

(** Scenario 3 of the specification: the main document is empty. *)
Lemma C7_scenario_3 :
  let w := world_of [] (txt "<style>x</style>") (txt "<script>y</script>") in
  outcome BuildPreview.main w = inr tt /\
  written BuildPreview.main BuildPreview.preview_path w = Some [] /\
  printed BuildPreview.main w = [warning_A; warning_B; created_B []] /\
  outcome AssemblePreview.main w = inr tt /\
  written AssemblePreview.main AssemblePreview.preview_path w = Some [].
Proof.
  intros w.
  destruct (C7_missing_marker_output w _ _ _ (inputs_world_of _ _ _))
    as (_ & _ & HA & HB).
  destruct (HA (writable_world_of _ _ _ _)) as (_ & _ & HA').
  destruct (HB (writable_world_of _ _ _ _)) as (_ & _ & HB').
  destruct (HA' eq_refl) as [? ?]. destruct (HB' eq_refl) as (? & ? & ?).
  by split_and!.
Defined.

(** ** The success line *)

(** C8. On every successful run the last line printed names the
    destination path: ["Created <path>"] in [assemble_preview.py], and
    ["Created <path> with length <n>"] in [build_preview.py], where [n] is
    the number of characters of the text written. *)
Theorem C8_success_line (w : World) (index style js : text) :
  inputs w index style js ->
  (writable w AssemblePreview.preview_path ->
   outcome AssemblePreview.main w = inr tt /\
   last (printed AssemblePreview.main w)
   = Some ("Created " ++ AssemblePreview.preview_path)%string) /\
  (writable w BuildPreview.preview_path ->
   outcome BuildPreview.main w = inr tt /\
   exists out,
     written BuildPreview.main BuildPreview.preview_path w = Some out /\
     last (printed BuildPreview.main w)
     = Some ("Created " ++ BuildPreview.preview_path ++ " with length "
             ++ Str.str_of_nat (length out))%string).
Proof.
  intros Hin. split; intros Hw.
  - rewrite (outcome_assemble w index style js Hin Hw).
    by rewrite (printed_assemble w index style js Hin Hw).
  - rewrite (outcome_build w index style js Hin Hw).
    rewrite (printed_build w index style js Hin Hw).
    rewrite (written_build w index style js Hin Hw).
    split; [done|]. by exists (A_then_B index style js).
Qed.

Lemma C8_scenario_1 :
  let w := world_of
             (txt "<html><?!= include('Stylesheet'); ?><?!= include('JavaScript'); ?></html>")
             (txt "<style>x</style>") (txt "<script>y</script>") in
  last (printed AssemblePreview.main w)
  = Some "Created /Users/nhelvengonzales/.gemini/antigravity/scratch/monday_integration/PreviewIndex.html"%string /\
  last (printed BuildPreview.main w)
  = Some "Created /Users/nhelvengonzales/.gemini/antigravity/scratch/monday_integration/Preview Folder/preview_v6.html with length 47"%string.
Proof.
  intros w.
  destruct (C8_success_line w _ _ _ (inputs_world_of _ _ _)) as [HA HB].
  destruct (HA (writable_world_of _ _ _ _)) as [_ HA'].
  destruct (HB (writable_world_of _ _ _ _)) as (_ & out & Ho & HB').
  split; [rewrite HA'; reflexivity|].
  assert (Ho' : written BuildPreview.main BuildPreview.preview_path w
                = Some (txt "<html><style>x</style><script>y</script></html>"))
    by reflexivity.
  rewrite Ho' in Ho. injection Ho as <-. rewrite HB'. reflexivity.
Defined.

(** * Further properties of the scripts *)

(** ** Markers after a substitution *)

Section MarkerPresence.

Import Str.

Lemma contains_no_start (x : ascii) (m g r : text) :
  no_start (x :: m) g = true ->
  contains (g ++ r) (x :: m) = contains r (x :: m).
Proof.
  induction g as [|c g IH]; intros H; [done|].
  rewrite <- app_comm_cons. cbn [contains].
  rewrite app_comm_cons, (no_start_head x m c g r H).
  apply IH. by apply no_start_tail in H.
Qed.

(** Replacing [old] by a fragment inert for [old] does not change where a
    proper suffix of [old] is found. *)
Lemma startswith_replace_own (x : ascii) (m f : text) :
  first_fresh (x :: m) (x :: m) = true -> inert (x :: m) f = true ->
  forall s k t, x :: m = k ++ t -> k <> [] ->
  startswith (replace s (x :: m) f) t = startswith s t.
Proof.
  intros Hx [Hff Hfn]%andb_true_iff s.
  induction s as [|r IH|c s E IH] using (replace_scan_ind x m);
    intros k t Hk Hne; [done| |].
  - rewrite replace_hit. destruct t as [|y t]; [by rewrite !startswith_nil|].
    assert (Hy : exists i, tail (x :: m) !! i = Some y).
    { rewrite Hk. destruct k as [|z k]; [done|].
      exists (length k). simpl. by rewrite list_lookup_middle. }
    destruct Hy as [i Hi].
    apply first_fresh_spec in Hff as (c & f' & -> & Hc).
    apply first_fresh_spec in Hx as (x' & m' & [= <- <-] & Hx).
    simpl. destruct (Ascii.eqb_spec c y) as [->|]; [by apply Hc in Hi|].
    destruct (Ascii.eqb_spec x y) as [->|]; [by apply Hx in Hi|done].
  - rewrite replace_miss by done. destruct t as [|y t]; [done|].
    simpl. destruct (Ascii.eqb c y); [|done].
    apply (IH (k ++ [y])); [by rewrite <- app_assoc|].
    by destruct k.
Qed.

(** After the replacement by a fragment inert for [old], no occurrence of
    [old] is left. *)
Lemma contains_replace_own (x : ascii) (m f s : text) :
  first_fresh (x :: m) (x :: m) = true -> inert (x :: m) f = true ->
  contains (replace s (x :: m) f) (x :: m) = false.
Proof.
  intros Hx Hf.
  induction s as [|r IH|c s E IH] using (replace_scan_ind x m); [done| |].
  - rewrite replace_hit, contains_no_start; [done|].
    by apply andb_true_iff in Hf as [_ ?].
  - rewrite replace_miss by done. cbn [contains]. rewrite IH, orb_false_r.
    rewrite <- E. cbn [startswith]. destruct (Ascii.eqb c x); [|done].
    by apply (startswith_replace_own x m f Hx Hf s [x] m).
Qed.

(** The replacement of [old] by a fragment inert for another marker [mk]
    neither removes nor brings in an occurrence of [mk]. *)
Lemma contains_replace_other (x : ascii) (m : text) (y : ascii)
    (n f s : text) :
  inert (y :: n) (x :: m) = true -> inert (y :: n) f = true ->
  contains (replace s (x :: m) f) (y :: n) = contains s (y :: n).
Proof.
  intros Ho Hf.
  induction s as [|r IH|c s E IH] using (replace_scan_ind x m); [done| |].
  - rewrite replace_hit, !contains_no_start; [done|..].
    + by apply andb_true_iff in Ho as [_ ?].
    + by apply andb_true_iff in Hf as [_ ?].
  - pose proof (startswith_replace_inert x m (y :: n) f Ho Hf (c :: s)
                  (y :: n) (ex_intro _ [] eq_refl)) as Hs.
    rewrite replace_miss in Hs |- * by done.
    cbn [contains]. by rewrite Hs, IH.
Qed.

End MarkerPresence.

Section MarkerPresenceAB.

Lemma no_A_after_subst_A (style doc : text) :
  inert M_A style = true -> Str.contains (subst_A style doc) M_A = false.
Proof. exact (contains_replace_own "<" (tail M_A) style doc eq_refl). Qed.

Lemma no_B_after_subst_B (js doc : text) :
  inert M_B js = true -> Str.contains (subst_B js doc) M_B = false.
Proof. exact (contains_replace_own "<" (tail M_B) js doc eq_refl). Qed.

Lemma subst_A_presence_B (style doc : text) :
  inert M_B style = true ->
  Str.contains (subst_A style doc) M_B = Str.contains doc M_B.
Proof.
  exact (contains_replace_other "<" (tail M_A) "<" (tail M_B) style doc
           eq_refl).
Qed.

Lemma subst_B_presence_A (js doc : text) :
  inert M_A js = true ->
  Str.contains (subst_B js doc) M_A = Str.contains doc M_A.
Proof.
  exact (contains_replace_other "<" (tail M_B) "<" (tail M_A) js doc
           eq_refl).
Qed.

End MarkerPresenceAB.

(** X1. A substitution by a fragment that is inert for the marker being
    replaced leaves no occurrence of that marker in the document. *)
Theorem X1_marker_eliminated (style js doc : text) :
  (inert M_A style = true -> Str.contains (subst_A style doc) M_A = false) /\
  (inert M_B js = true -> Str.contains (subst_B js doc) M_B = false).
Proof.
  split; [apply no_A_after_subst_A|apply no_B_after_subst_B].
Qed.

Lemma X1_witness :
  Str.contains
    (subst_A (txt "<style>x</style>")
       (txt "a<?!= include('Stylesheet'); ?>b<?!= include('Stylesheet'); ?>"))
    M_A = false.
Proof.
  apply (proj1 (X1_marker_eliminated (txt "<style>x</style>") [] _)).
  reflexivity.
Defined.

(** X2. A substitution by a fragment that is inert for the other marker
    neither removes nor brings in an occurrence of the other marker. *)
Theorem X2_other_marker_untouched (style js doc : text) :
  (inert M_B style = true ->
   Str.contains (subst_A style doc) M_B = Str.contains doc M_B) /\
  (inert M_A js = true ->
   Str.contains (subst_B js doc) M_A = Str.contains doc M_A).
Proof.
  split; [apply subst_A_presence_B|apply subst_B_presence_A].
Qed.

Lemma X2_witness :
  Str.contains
    (subst_A (txt "<style>x</style>")
       (txt "<?!= include('Stylesheet'); ?><?!= include('JavaScript'); ?>"))
    M_B
  = Str.contains
      (txt "<?!= include('Stylesheet'); ?><?!= include('JavaScript'); ?>") M_B.
Proof.
  apply (proj1 (X2_other_marker_untouched (txt "<style>x</style>") [] _)).
  reflexivity.
Defined.

(** X3. When the stylesheet fragment is inert for the Stylesheet marker and
    the javascript fragment is inert for both markers, the text that the
    scripts write contains neither marker, and assembling that text again
    with the same fragments gives it back unchanged. *)
Theorem X3_output_marker_free (w : World) (index style js : text) :
  inert M_A style = true -> inert M_A js = true -> inert M_B js = true ->
  inputs w index style js ->
  let out := A_then_B index style js in
  Str.contains out M_A = false /\ Str.contains out M_B = false /\
  A_then_B out style js = out /\
  (writable w AssemblePreview.preview_path ->
   written AssemblePreview.main AssemblePreview.preview_path w = Some out) /\
  (writable w BuildPreview.preview_path ->
   written BuildPreview.main BuildPreview.preview_path w = Some out).
Proof.
  intros HAs HAj HBj Hin out.
  assert (EA : Str.contains out M_A = false).
  { subst out. unfold A_then_B. rewrite (subst_B_presence_A js _ HAj).
    by apply no_A_after_subst_A. }
  assert (EB : Str.contains out M_B = false).
  { subst out. unfold A_then_B. by apply no_B_after_subst_B. }
  split_and!; [done|done| | |].
  - unfold A_then_B. rewrite (subst_absent_A style out EA).
    by rewrite (subst_absent_B js out EB).
  - intros Hw. by apply written_assemble.
  - intros Hw. by apply written_build.
Qed.

Lemma X3_witness :
  let index :=
    txt "<html><?!= include('Stylesheet'); ?><?!= include('JavaScript'); ?></html>" in
  let style := txt "<style>x</style>" in
  let js := txt "<script>y</script>" in
  let out := A_then_B index style js in
  Str.contains out M_A = false /\ Str.contains out M_B = false /\
  A_then_B out style js = out.
Proof.
  intros index style js out.
  destruct (X3_output_marker_free (world_of index style js) index style js
              eq_refl eq_refl eq_refl (inputs_world_of _ _ _))
    as (H1 & H2 & H3 & _).
  by split_and!.
Defined.

(** X4. When the stylesheet fragment is inert for the JavaScript marker,
    the two status lines of [build_preview.py] report the markers of the
    main document itself: a marker is reported found exactly when the main
    document contains it. *)
Theorem X4_status_of_main_document (w : World) (index style js : text) :
  inert M_B style = true ->
  inputs w index style js -> writable w BuildPreview.preview_path ->
  printed BuildPreview.main w
  = [if Str.contains index M_A then found_A else warning_A;
     if Str.contains index M_B then found_B else warning_B;
     created_B (A_then_B index style js)].
Proof.
  intros Hs Hin Hw. rewrite (printed_build w index style js Hin Hw).
  unfold status. by rewrite (subst_A_presence_B style index Hs).
Qed.

Lemma X4_witness :
  printed BuildPreview.main
    (world_of (txt "<html><?!= include('Stylesheet'); ?></html>")
       (txt "<style>x</style>") (txt "<script>y</script>"))
  = [found_A; warning_B; created_B (txt "<html><style>x</style></html>")].
Proof.
  rewrite (X4_status_of_main_document
             (world_of (txt "<html><?!= include('Stylesheet'); ?></html>")
                (txt "<style>x</style>") (txt "<script>y</script>"))
             (txt "<html><?!= include('Stylesheet'); ?></html>")
             (txt "<style>x</style>") (txt "<script>y</script>")
             eq_refl (inputs_world_of _ _ _) (writable_world_of _ _ _ _)).
  reflexivity.
Defined.

(** ** Occurrences and lengths *)

Section Counting.

Import Str.

Lemma count_scan_skip (old : text) (k : nat) (s : text) :
  k <= length s -> count_scan old k s = count_scan old 0 (drop k s).
Proof.
  revert k; induction s as [|c s IH]; intros [|k] Hk; simpl in *;
    try done; try lia.
  apply IH. lia.
Qed.

Lemma count_hit (x : ascii) (m r : text) :
  count ((x :: m) ++ r) (x :: m) = S (count r (x :: m)).
Proof.
  unfold count. simpl. rewrite Ascii.eqb_refl, startswith_app.
  f_equal. rewrite Nat.sub_0_r, count_scan_skip.
  - by rewrite drop_app_length.
  - rewrite length_app. lia.
Qed.

Lemma count_miss (x : ascii) (m : text) (c : ascii) (s : text) :
  startswith (c :: s) (x :: m) = false ->
  count (c :: s) (x :: m) = count s (x :: m).
Proof. unfold count. intros H. simpl in *. by rewrite H. Qed.

(** Every occurrence found trades [length old] characters for
    [length new] characters. *)
Lemma length_replace (s old new : text) :
  length (replace s old new) + count s old * length old
  = length s + count s old * length new.
Proof.
  destruct old as [|x m].
  - unfold replace, count. rewrite length_app.
    assert (E : length (flat_map (fun c => c :: new) s)
                = length s * S (length new)).
    { induction s as [|c s IH]; [done|]. simpl. rewrite length_app, IH. lia. }
    rewrite E. simpl. nia.
  - induction s as [|r IH|c s E IH] using (replace_scan_ind x m).
    + done.
    + rewrite replace_hit, count_hit, !length_app, !Nat.mul_succ_l.
      remember (length (x :: m)) as L eqn:EL. clear EL. lia.
    + rewrite replace_miss, count_miss by done.
      remember (length (x :: m)) as L eqn:EL. clear EL. cbn [length]. lia.
Qed.

(** A block from which no occurrence of [mk] can start holds none. *)
Lemma count_no_start (y : ascii) (n g r : text) :
  no_start (y :: n) g = true -> count (g ++ r) (y :: n) = count r (y :: n).
Proof.
  induction g as [|c g IH]; intros H; [done|].
  rewrite <- app_comm_cons, count_miss.
  - apply IH. by apply no_start_tail in H.
  - by apply (no_start_head y n c g r).
Qed.

(** The replacement of [old] by a fragment inert for another marker [mk]
    keeps the number of occurrences of [mk]. *)
Lemma count_replace_other (x : ascii) (m : text) (y : ascii) (n f : text) :
  inert (y :: n) (x :: m) = true -> inert (x :: m) (y :: n) = true ->
  inert (y :: n) f = true ->
  forall s, count (replace s (x :: m) f) (y :: n) = count s (y :: n).
Proof.
  intros Hyx Hxy Hf s.
  induction s as [s IH] using (induction_ltof1 _ (@length ascii)).
  unfold ltof in IH. destruct s as [|c s]; [done|].
  destruct (startswith (c :: s) (x :: m)) eqn:Ex;
    [|destruct (startswith (c :: s) (y :: n)) eqn:Ey].
  - apply startswith_inv in Ex. rewrite Ex.
    set (r := drop (length (x :: m)) (c :: s)).
    assert (Hr : length r < length (c :: s)).
    { subst r. rewrite length_drop. simpl. lia. }
    apply andb_true_iff in Hyx as [_ Hyx]. apply andb_true_iff in Hf as [_ Hf].
    rewrite replace_hit, !count_no_start by done. by apply IH.
  - apply startswith_inv in Ey. rewrite Ey.
    set (r := drop (length (y :: n)) (c :: s)).
    assert (Hr : length r < length (c :: s)).
    { subst r. rewrite length_drop. simpl. lia. }
    apply andb_true_iff in Hxy as [_ Hxy].
    rewrite replace_no_start, !count_hit by done. f_equal. by apply IH.
  - pose proof (startswith_replace_inert x m (y :: n) f Hyx Hf (c :: s)
                  (y :: n) (ex_intro _ [] eq_refl)) as Hs.
    rewrite replace_miss in Hs |- * by done.
    rewrite !count_miss by congruence. apply IH. simpl. lia.
Qed.

(** No occurrence is counted exactly when the marker is not contained. *)
Lemma count_zero (x : ascii) (m s : text) :
  count s (x :: m) = 0 <-> contains s (x :: m) = false.
Proof.
  induction s as [|r IH|c s E IH] using (replace_scan_ind x m).
  - done.
  - rewrite count_hit, (contains_startswith _ _ (startswith_app _ r)).
    split; [lia|done].
  - rewrite count_miss by done. cbn [contains]. by rewrite E.
Qed.

End Counting.

Section OutputLength.

Lemma output_length (index style js : text) :
  let nA := count index M_A in
  let nB := count (subst_A style index) M_B in
  length (A_then_B index style js) + (nA + nB) * 30
  = length index + nA * length style + nB * length js.
Proof.
  intros nA nB. unfold A_then_B.
  pose proof (length_replace index M_A style) as HA.
  pose proof (length_replace (subst_A style index) M_B js) as HB.
  change (length M_A) with 30 in HA. change (length M_B) with 30 in HB.
  fold (subst_A style index) in HA.
  fold (subst_B js (subst_A style index)) in HB.
  fold nA in HA. fold nB in HB. lia.
Qed.

End OutputLength.

(** X5. The length of the text that the scripts write, which
    [build_preview.py] prints: each Stylesheet marker found in the main
    document trades the 30 characters of the marker for the stylesheet
    fragment, and each JavaScript marker found in the document after the
    Stylesheet substitution trades its 30 characters for the javascript
    fragment. *)
Theorem X5_output_length (index style js : text) :
  let nA := count index M_A in
  let nB := count (subst_A style index) M_B in
  length (A_then_B index style js) + (nA + nB) * 30
  = length index + nA * length style + nB * length js.
Proof. apply output_length. Qed.

(** X6. When the stylesheet fragment is inert for the JavaScript marker, the
    length of the output is given by the occurrences of the two markers in
    the main document alone; in particular a main document without markers
    is written with its own length. *)
Theorem X6_output_length_from_main (index style js : text) :
  inert M_B style = true ->
  length (A_then_B index style js)
  + (count index M_A + count index M_B) * 30
  = length index + count index M_A * length style
    + count index M_B * length js.
Proof.
  intros Hs. pose proof (output_length index style js) as H. cbv zeta in H.
  rewrite (count_replace_other "<" (tail M_A) "<" (tail M_B) style
             eq_refl eq_refl Hs index : count (subst_A style index) M_B = _)
    in H.
  exact H.
Qed.

Lemma X6_witness :
  length
    (A_then_B
       (txt "<html><?!= include('Stylesheet'); ?><?!= include('JavaScript'); ?></html>")
       (txt "<style>x</style>") (txt "<script>y</script>"))
  + (1 + 1) * 30
  = 73 + 1 * 16 + 1 * 18.
Proof.
  exact (X6_output_length_from_main
           (txt "<html><?!= include('Stylesheet'); ?><?!= include('JavaScript'); ?></html>")
           (txt "<style>x</style>") (txt "<script>y</script>") eq_refl).
Defined.

(** ** Every outcome of a run *)

Section Outcomes.

Lemma can_read_dec (w : World) (p : path) : can_read w p \/ ~ can_read w p.
Proof.
  unfold can_read, readable.
  destruct (decide (p ∈ unreadable w)); [right; by intros (t & ? & _)|].
  destruct (files w !! p) as [t|] eqn:E; [left; eauto|].
  right. intros (t & _ & ?). congruence.
Qed.

Lemma read_file_error (w : World) (p : path) :
  ~ can_read w p -> read_file p w = (w, inl (open_error w p)).
Proof.
  intros H. unfold read_file, open_error.
  destruct (decide (p ∈ unreadable w)); [done|].
  destruct (files w !! p) as [t|] eqn:E; [|done].
  destruct H. by exists t.
Qed.

Lemma write_file_error (w : World) (p : path) (t : text) :
  ~ writable w p -> write_file p t w = (w, inl (PermissionError p)).
Proof.
  intros H. unfold write_file.
  destruct (decide (p ∈ unwritable w)) as [|N]; [done|]. by destruct H.
Qed.

(** The three reads, in their order, in front of any continuation. *)
Lemma three_reads (k : text -> text -> text -> IO unit) (w : World)
    (p1 p2 p3 : path) :
  let script := a ← read_file p1; b ← read_file p2; c ← read_file p3; k a b c in
  (~ can_read w p1 -> script w = (w, inl (open_error w p1))) /\
  (can_read w p1 -> ~ can_read w p2 ->
   script w = (w, inl (open_error w p2))) /\
  (can_read w p1 -> can_read w p2 -> ~ can_read w p3 ->
   script w = (w, inl (open_error w p3))) /\
  (forall a b c, readable w p1 a -> readable w p2 b -> readable w p3 c ->
   script w = k a b c w).
Proof.
  intros script. subst script. split_and!.
  - intros H. by rewrite bind_run, read_file_error.
  - intros [a Ha] H. rewrite bind_run, (read_file_ok _ _ _ Ha).
    by rewrite bind_run, read_file_error.
  - intros [a Ha] [b Hb] H. rewrite bind_run, (read_file_ok _ _ _ Ha).
    rewrite bind_run, (read_file_ok _ _ _ Hb).
    by rewrite bind_run, read_file_error.
  - intros a b c Ha Hb Hc. rewrite bind_run, (read_file_ok _ _ _ Ha).
    rewrite bind_run, (read_file_ok _ _ _ Hb).
    by rewrite bind_run, (read_file_ok _ _ _ Hc).
Qed.

(** The destination cannot be written: [assemble_preview.py] raises in the
    world it started in. *)
Lemma assemble_write_fail (w : World) (index style js : text) :
  inputs w index style js -> ~ writable w AssemblePreview.preview_path ->
  AssemblePreview.main w
  = (w, inl (PermissionError AssemblePreview.preview_path)).
Proof.
  intros (Hi & Hs & Hj) Hw. unfold AssemblePreview.main.
  rewrite bind_run, (read_file_ok _ _ _ Hi).
  rewrite bind_run, (read_file_ok _ _ _ Hs).
  rewrite bind_run, (read_file_ok _ _ _ Hj).
  cbv zeta. by rewrite bind_run, write_file_error.
Qed.

(** The destination cannot be written: [build_preview.py] raises after its
    two status lines. *)
Lemma build_write_fail (w : World) (index style js : text) :
  inputs w index style js -> ~ writable w BuildPreview.preview_path ->
  BuildPreview.main w
  = (mkWorld (files w) (unreadable w) (unwritable w)
       (stdout w ++ [status found_A warning_A index M_A;
                     status found_B warning_B (subst_A style index) M_B]),
     inl (PermissionError BuildPreview.preview_path)).
Proof.
  intros (Hi & Hs & Hj) Hw. unfold BuildPreview.main.
  change BuildPreview.index_path with AssemblePreview.index_path.
  change BuildPreview.style_path with AssemblePreview.style_path.
  change BuildPreview.js_path with AssemblePreview.js_path.
  rewrite bind_run, (read_file_ok _ _ _ Hi).
  rewrite bind_run, (read_file_ok _ _ _ Hs).
  rewrite bind_run, (read_file_ok _ _ _ Hj).
  rewrite bind_run, guarded_step.
  rewrite bind_run, guarded_step.
  rewrite bind_run, write_file_error by done.
  cbn [stdout files unreadable unwritable]. by rewrite <- !app_assoc.
Qed.

Lemma writable_dec (w : World) (p : path) : writable w p \/ ~ writable w p.
Proof.
  unfold writable. destruct (decide (p ∈ unwritable w)); [right|left]; auto.
Qed.

(** The possible runs of [assemble_preview.py]. *)
Lemma assemble_cases (w : World) :
  (exists index style js,
     inputs w index style js /\ writable w AssemblePreview.preview_path /\
     AssemblePreview.main w
     = (mkWorld (<[AssemblePreview.preview_path := A_then_B index style js]>
                   (files w))
          (unreadable w) (unwritable w) (stdout w ++ [created_A]), inr tt)) \/
  (exists e,
     AssemblePreview.main w = (w, inl e) /\
     ~ (can_read w AssemblePreview.index_path /\
        can_read w AssemblePreview.style_path /\
        can_read w AssemblePreview.js_path /\
        writable w AssemblePreview.preview_path)).
Proof.
  destruct (three_reads
              (fun a b c =>
                 _ ← write_file AssemblePreview.preview_path
                       (Str.replace (Str.replace a M_A b) M_B c);
                 print ("Created " ++ AssemblePreview.preview_path)%string)
              w AssemblePreview.index_path AssemblePreview.style_path
              AssemblePreview.js_path) as (F1 & F2 & F3 & _).
  destruct (can_read_dec w AssemblePreview.index_path) as [R1|R1];
    [|right; eexists; split; [exact (F1 R1)|tauto]].
  destruct (can_read_dec w AssemblePreview.style_path) as [R2|R2];
    [|right; eexists; split; [exact (F2 R1 R2)|tauto]].
  destruct (can_read_dec w AssemblePreview.js_path) as [R3|R3];
    [|right; eexists; split; [exact (F3 R1 R2 R3)|tauto]].
  destruct R1 as [i Hi], R2 as [s Hs], R3 as [j Hj].
  assert (Hin : inputs w i s j) by done.
  destruct (writable_dec w AssemblePreview.preview_path) as [Hw|Hw].
  - left. exists i, s, j. split_and!; [done|done|]. by apply assemble_run.
  - right. eexists. split; [by apply (assemble_write_fail w i s j)|tauto].
Qed.

(** The possible runs of [build_preview.py]. *)
Lemma build_cases (w : World) :
  (exists index style js,
     inputs w index style js /\ writable w BuildPreview.preview_path /\
     BuildPreview.main w
     = (mkWorld (<[BuildPreview.preview_path := A_then_B index style js]>
                   (files w))
          (unreadable w) (unwritable w)
          (stdout w ++ [status found_A warning_A index M_A;
                        status found_B warning_B (subst_A style index) M_B;
                        created_B (A_then_B index style js)]), inr tt)) \/
  (exists e lines,
     BuildPreview.main w
     = (mkWorld (files w) (unreadable w) (unwritable w) (stdout w ++ lines),
        inl e) /\
     (forall out, created_B out ∉ lines) /\
     ~ (can_read w AssemblePreview.index_path /\
        can_read w AssemblePreview.style_path /\
        can_read w AssemblePreview.js_path /\
        writable w BuildPreview.preview_path)).
Proof.
  assert (Hw0 : forall e, (w, inl e)
                = (mkWorld (files w) (unreadable w) (unwritable w)
                     (stdout w ++ []), @inl OSError unit e)).
  { intros e. rewrite app_nil_r. by destruct w. }
  destruct (three_reads
              (fun a b c =>
                 d ← (if Str.contains a M_A
                      then _ ← print "Found Stylesheet include";
                           mret (Str.replace a M_A b)
                      else _ ← print "WARNING: Stylesheet include not found exactly";
                           mret a);
                 d' ← (if Str.contains d M_B
                       then _ ← print "Found JavaScript include";
                            mret (Str.replace d M_B c)
                       else _ ← print "WARNING: JavaScript include not found exactly";
                            mret d);
                 _ ← write_file BuildPreview.preview_path d';
                 print ("Created " ++ BuildPreview.preview_path
                        ++ " with length "
                        ++ Str.str_of_nat (length d'))%string)
              w AssemblePreview.index_path AssemblePreview.style_path
              AssemblePreview.js_path) as (F1 & F2 & F3 & _).
  destruct (can_read_dec w AssemblePreview.index_path) as [R1|R1];
    [|right; exists (open_error w AssemblePreview.index_path), [];
      split_and!; [by rewrite <- Hw0; apply F1|by intros ? ?%elem_of_nil|tauto]].
  destruct (can_read_dec w AssemblePreview.style_path) as [R2|R2];
    [|right; exists (open_error w AssemblePreview.style_path), [];
      split_and!; [by rewrite <- Hw0; apply F2|by intros ? ?%elem_of_nil|tauto]].
  destruct (can_read_dec w AssemblePreview.js_path) as [R3|R3];
    [|right; exists (open_error w AssemblePreview.js_path), [];
      split_and!; [by rewrite <- Hw0; apply F3|by intros ? ?%elem_of_nil|tauto]].
  destruct R1 as [i Hi], R2 as [s Hs], R3 as [j Hj].
  assert (Hin : inputs w i s j) by done.
  destruct (writable_dec w BuildPreview.preview_path) as [Hw|Hw].
  - left. exists i, s, j. split_and!; [done|done|]. by apply build_run.
  - right. eexists _, _. split_and!;
      [by apply (build_write_fail w i s j)| |tauto].
    intros out H. unfold status in H.
    apply elem_of_cons in H as [H|H].
    { destruct (Str.contains i M_A); discriminate H. }
    apply elem_of_cons in H as [H|H].
    { destruct (Str.contains _ M_B); discriminate H. }
    by apply elem_of_nil in H.
Qed.

End Outcomes.



(** X8. A run succeeds exactly when the three inputs can be read and the
    destination can be written. *)
Theorem X8_success_condition (w : World) :
  (outcome AssemblePreview.main w = inr tt <->
   can_read w AssemblePreview.index_path /\
   can_read w AssemblePreview.style_path /\
   can_read w AssemblePreview.js_path /\
   writable w AssemblePreview.preview_path) /\
  (outcome BuildPreview.main w = inr tt <->
   can_read w BuildPreview.index_path /\
   can_read w BuildPreview.style_path /\
   can_read w BuildPreview.js_path /\
   writable w BuildPreview.preview_path).
Proof.
  split; split.
  - intros H. unfold outcome in H.
    destruct (assemble_cases w) as [(i & s & j & (?&?&?) & ? & _)
                                   |(e & E & _)].
    + unfold can_read. eauto 10.
    + by rewrite E in H.
  - intros ([i Hi] & [s Hs] & [j Hj] & Hw).
    by apply (outcome_assemble w i s j).
  - intros H. unfold outcome in H.
    destruct (build_cases w) as [(i & s & j & (?&?&?) & ? & _)
                                |(e & lines & E & _)].
    + unfold can_read. split_and!; eauto.
    + by rewrite E in H.
  - intros ([i Hi] & [s Hs] & [j Hj] & Hw).
    by apply (outcome_build w i s j).
Qed.



(** X10. Whatever the outcome of a run, a script touches no file but its
    destination, changes no permission, and keeps every console line that
    was there before. *)
Theorem X10_frame (w : World) :
  let after_A := world_after AssemblePreview.main w in
  let after_B := world_after BuildPreview.main w in
  (forall p, p <> AssemblePreview.preview_path ->
             files after_A !! p = files w !! p) /\
  unreadable after_A = unreadable w /\ unwritable after_A = unwritable w /\
  stdout w `prefix_of` stdout after_A /\
  (forall p, p <> BuildPreview.preview_path ->
             files after_B !! p = files w !! p) /\
  unreadable after_B = unreadable w /\ unwritable after_B = unwritable w /\
  stdout w `prefix_of` stdout after_B.
Proof.
  intros after_A after_B. subst after_A after_B. unfold world_after.
  destruct (assemble_cases w) as [(i & s & j & _ & _ & ->)|(e & -> & _)];
    destruct (build_cases w) as [(i' & s' & j' & _ & _ & ->)
                                |(e' & lines & -> & _)];
    cbn [fst files unreadable unwritable stdout];
    split_and!; try done;
    try (intros p Hp; by rewrite lookup_insert_ne);
    try (by apply prefix_app_r).
Qed.


(** ** The two scripts one after the other *)

Section BothScripts.

Lemma previews_differ :
  AssemblePreview.preview_path <> BuildPreview.preview_path.
Proof. apply String.eqb_neq. reflexivity. Qed.

End BothScripts.

(** X12. The two scripts can be run one after the other, in either order:
    the second run finds the inputs as they were, both destinations end up
    holding the same text, and the resulting files do not depend on the
    order of the two runs. *)
Theorem X12_scripts_in_sequence (w : World) (index style js : text) :
  inputs w index style js ->
  writable w AssemblePreview.preview_path ->
  writable w BuildPreview.preview_path ->
  let w_AB := world_after BuildPreview.main
                (world_after AssemblePreview.main w) in
  let w_BA := world_after AssemblePreview.main
                (world_after BuildPreview.main w) in
  outcome BuildPreview.main (world_after AssemblePreview.main w) = inr tt /\
  outcome AssemblePreview.main (world_after BuildPreview.main w) = inr tt /\
  inputs w_AB index style js /\
  files w_AB !! AssemblePreview.preview_path
  = Some (A_then_B index style js) /\
  files w_AB !! BuildPreview.preview_path = Some (A_then_B index style js) /\
  files w_AB = files w_BA.
Proof.
  intros Hin HwA HwB w_AB w_BA. subst w_AB w_BA.
  destruct preview_A_not_input as (A1 & A2 & A3).
  destruct preview_B_not_input as (B1 & B2 & B3).
  unfold world_after, outcome.
  rewrite (assemble_run w index style js Hin HwA).
  rewrite (build_run w index style js Hin HwB). cbn [fst].
  set (wA := mkWorld _ _ _ (stdout w ++ [created_A])).
  set (wB := mkWorld _ _ _ (stdout w ++ [_; _; _])).
  assert (HinA : inputs wA index style js)
    by by apply inputs_after_write.
  assert (HinB : inputs wB index style js)
    by by apply inputs_after_write.
  rewrite (build_run wA index style js HinA HwB).
  rewrite (assemble_run wB index style js HinB HwA).
  cbn [fst snd files]. split_and!; [done|done| | | |].
  - by apply inputs_after_write.
  - rewrite lookup_insert_ne by (by intros ?; apply previews_differ).
    apply lookup_insert_eq.
  - apply lookup_insert_eq.
  - apply insert_insert_ne. intros E. by apply previews_differ.
Qed.

Lemma X12_witness :
  let index :=
    txt "<html><?!= include('Stylesheet'); ?><?!= include('JavaScript'); ?></html>" in
  let style := txt "<style>x</style>" in
  let js := txt "<script>y</script>" in
  let w := world_of index style js in
  let w_AB := world_after BuildPreview.main
                (world_after AssemblePreview.main w) in
  files w_AB !! AssemblePreview.preview_path
  = Some (txt "<html><style>x</style><script>y</script></html>") /\
  files w_AB !! BuildPreview.preview_path
  = Some (txt "<html><style>x</style><script>y</script></html>").
Proof.
  intros index style js w w_AB.
  destruct (X12_scripts_in_sequence w index style js (inputs_world_of _ _ _)
              (writable_world_of _ _ _ _) (writable_world_of _ _ _ _))
    as (_ & _ & _ & HA & HB & _).
  split; [exact HA|exact HB].
Defined.

(** ** Paths *)

Section Paths.

Local Open Scope string_scope.

Lemma string_app_assoc (a b c : string) : (a ++ b) ++ c = a ++ b ++ c.
Proof.
  induction a as [|x a IH]; [done|].
  change (String x ((a ++ b) ++ c) = String x (a ++ b ++ c)).
  by rewrite IH.
Qed.

Lemma list_ascii_of_string_app (a b : string) :
  list_ascii_of_string (a ++ b)
  = (list_ascii_of_string a ++ list_ascii_of_string b)%list.
Proof.
  induction a as [|x a IH]; [done|].
  change (x :: list_ascii_of_string (a ++ b)
          = x :: (list_ascii_of_string a ++ list_ascii_of_string b)%list).
  by rewrite IH.
Qed.

Lemma join2_relative (a b : string) :
  String.prefix Os.sep b = false -> Os.join2 a b = a ++ glue a ++ b.
Proof.
  intros H. unfold Os.join2, glue. rewrite H.
  by destruct (String.eqb a "" || Os.endswith_sep a)%bool.
Qed.

(** A path that ends with the name of a folder takes a separator. *)
Lemma glue_after_name (a : string) :
  glue (a ++ "Preview Folder") = Os.sep.
Proof.
  unfold glue, Os.endswith_sep.
  rewrite list_ascii_of_string_app, rev_app_distr.
  by destruct a.
Qed.

End Paths.



Section PathsOfTheScripts.

Local Open Scope string_scope.

Variable base : string.

Lemma join_name (name : string) :
  String.prefix Os.sep name = false ->
  Os.path_join base [name] = base ++ glue base ++ name.
Proof. intros H. by apply join2_relative. Qed.

Lemma join_preview_folder :
  Os.path_join base ["Preview Folder"; "preview_v6.html"]
  = base ++ glue base ++ "Preview Folder/preview_v6.html".
Proof.
  unfold Os.path_join. cbn [fold_left].
  rewrite (join2_relative base "Preview Folder") by reflexivity.
  rewrite join2_relative by reflexivity.
  rewrite <- (string_app_assoc base (glue base) "Preview Folder").
  rewrite glue_after_name.
  by rewrite !string_app_assoc.
Qed.

Lemma names_differ (x y : string) :
  String.eqb x y = false -> base ++ glue base ++ x <> base ++ glue base ++ y.
Proof.
  intros H E. apply (inj (String.append base)) in E.
  apply (inj (String.append (glue base))) in E.
  apply String.eqb_neq in H. by apply H.
Qed.

End PathsOfTheScripts.

(** X14. Whatever the base directory, the paths built by the scripts are
    distinct: the destination of each script is none of the three inputs,
    and the two destinations differ.  A run can therefore not overwrite one
    of its inputs. *)
Theorem X14_destination_is_no_input (base : string) :
  let index := Os.path_join base ["Index.html"%string] in
  let style := Os.path_join base ["Stylesheet.html"%string] in
  let js := Os.path_join base ["JavaScript.html"%string] in
  let preview_A := Os.path_join base ["PreviewIndex.html"%string] in
  let preview_B :=
    Os.path_join base ["Preview Folder"%string; "preview_v6.html"%string] in
  preview_A <> index /\ preview_A <> style /\ preview_A <> js /\
  preview_B <> index /\ preview_B <> style /\ preview_B <> js /\
  preview_A <> preview_B /\
  index <> style /\ index <> js /\ style <> js.
Proof.
  intros index style js preview_A preview_B.
  subst index style js preview_A preview_B.
  rewrite join_preview_folder, !join_name by reflexivity.
  split_and!; by apply names_differ.
Qed.

(** ** Fragments written as one element *)

(** X15. For fragments that begin with [<], end with [>] and contain
    neither marker (a [<style>...</style>] and a [<script>...</script>]
    element, say), the pipeline is as simple as it looks: the output
    contains neither marker, the opposite order of the two substitutions
    would give the same text, and the second status line of
    [build_preview.py] reports the JavaScript marker of the main document
    itself. *)
Theorem X15_element_fragments (index style js : text) :
  head style = Some "<"%char -> last style = Some ">"%char ->
  Str.contains style M_A = false -> Str.contains style M_B = false ->
  head js = Some "<"%char -> last js = Some ">"%char ->
  Str.contains js M_A = false -> Str.contains js M_B = false ->
  let out := A_then_B index style js in
  Str.contains out M_A = false /\ Str.contains out M_B = false /\
  out = B_then_A index style js /\
  status found_B warning_B (subst_A style index) M_B
  = status found_B warning_B index M_B.
Proof.
  intros Hs1 Hs2 HsA HsB Hj1 Hj2 HjA HjB out.
  pose proof (delimited_inert_A style Hs1 Hs2 HsA) as IAs.
  pose proof (delimited_inert_B style Hs1 Hs2 HsB) as IBs.
  pose proof (delimited_inert_A js Hj1 Hj2 HjA) as IAj.
  pose proof (delimited_inert_B js Hj1 Hj2 HjB) as IBj.
  subst out. split_and!.
  - unfold A_then_B. rewrite (subst_B_presence_A js _ IAj).
    by apply no_A_after_subst_A.
  - unfold A_then_B. by apply no_B_after_subst_B.
  - unfold A_then_B, B_then_A, subst_A, subst_B.
    exact (replace_commute "<" "<" (tail M_A) (tail M_B) style js
             eq_refl eq_refl IBs IAj index).
  - unfold status. by rewrite (subst_A_presence_B style index IBs).
Qed.

Lemma X15_witness :
  let index :=
    txt "<html><?!= include('Stylesheet'); ?><?!= include('JavaScript'); ?></html>" in
  let style := txt "<style>x</style>" in
  let js := txt "<script>y</script>" in
  Str.contains (A_then_B index style js) M_A = false /\
  Str.contains (A_then_B index style js) M_B = false /\
  A_then_B index style js = B_then_A index style js.
Proof.
  intros index style js.
  destruct (X15_element_fragments index style js eq_refl eq_refl eq_refl
              eq_refl eq_refl eq_refl eq_refl eq_refl) as (H1 & H2 & H3 & _).
  by split_and!.
Defined.
